(** * Text generation strategies: batch preparation and stopping protocol

    A shallow embedding of
    [nemo/collections/nlp/modules/common/text_generation_strategy.py].

    Conventions of the embedding:
    - Python [int] is [Z]; the integers kept in tensors are token ids,
      positions and lengths, and the 64-bit element type of the tensors is
      taken to hold them (no arithmetic is performed on tensor entries);
    - a one-dimensional integer tensor is a [list Z]; a two-dimensional one
      is a [grid]: its rows together with its column count (a tensor keeps
      its width even when it has no rows);
    - Python slices and indices take negative arguments, and this is written
      out ([slice_stop], [index_resolve]);
    - an exception is a value of [py_error]; a call that may raise returns a
      [result];
    - the attributes a method assigns ([_end_of_generation_cache]) are
      threaded explicitly, and the calls made to the tokenizer and the
      warnings issued are recorded as a list of [event]s. *)

From Stdlib Require Import ZArith Ascii String List Bool Lia.
From stdpp Require Import base gmap strings list.

Open Scope Z_scope.

(** ** Python values, exceptions and results *)

(** The exceptions that can be raised; the message of a [ValueError] is
    not kept. *)
Inductive py_error :=
| ValueError
| KeyError (key : string)
| IndexError
| TypeError
| RuntimeError
| AssertionError.

Inductive result (A : Type) :=
| Ok (a : A)
| Err (e : py_error).
Arguments Ok {A} a.
Arguments Err {A} e.

(** Sequencing of calls that may raise: [x ← r; k] stops at the first
    exception. *)
#[global] Instance result_bind : MBind result :=
  fun A B (k : A -> result B) (r : result A) =>
    match r with
    | Ok a => k a
    | Err e => Err e
    end.

(** A two-dimensional integer tensor of shape [length trows, ncols]. *)
Record grid := Grid { ncols : nat; trows : list (list Z) }.

Definition grid_wf (t : grid) : Prop :=
  Forall (fun r => length r = ncols t) (trows t).

Definition nrows (t : grid) : nat := length (trows t).

Definition grid_get (t : grid) (i j : nat) : option Z :=
  match trows t !! i with
  | Some r => r !! j
  | None => None
  end.

(** An attention mask is a boolean tensor of shape [b, 1, s, s]; only its
    leading dimension is acted upon here. *)
Definition mask := list (list (list (list bool))).

(** What a batch entry or a keyword argument can hold. *)
Inductive value :=
| VNone
| VBool (b : bool)
| VInt (n : Z)
| VStr (s : string)
| VVec (v : list Z)
| VBools (v : list bool)
| VGrid (t : grid)
| VMask (m : mask).

#[global] Instance grid_eq_dec : EqDecision grid.
Proof. solve_decision. Defined.

#[global] Instance value_eq_dec : EqDecision value.
Proof. solve_decision. Defined.

(** ** Python sequence operations *)

(** [seq[:stop]] on a sequence of length [len]: the resolved end index. *)
Definition slice_stop (len : nat) (stop : Z) : nat :=
  if stop <? 0 then Z.to_nat (Z.max 0 (Z.of_nat len + stop))
  else Z.to_nat (Z.min stop (Z.of_nat len)).

(** [seq[start:]]: the resolved start index. *)
Definition slice_start (len : nat) (start : Z) : nat :=
  if start <? 0 then Z.to_nat (Z.max 0 (Z.of_nat len + start))
  else Z.to_nat (Z.min start (Z.of_nat len)).

(** [seq[start:stop]] *)
Definition py_slice {A} (l : list A) (start stop : Z) : list A :=
  let a := slice_start (length l) start in
  let b := slice_stop (length l) stop in
  take (b - a) (drop a l).

(** [seq[i]]: the position read, or [IndexError]. *)
Definition index_resolve (len : nat) (i : Z) : result nat :=
  let j := if i <? 0 then i + Z.of_nat len else i in
  if (0 <=? j) && (j <? Z.of_nat len) then Ok (Z.to_nat j) else Err IndexError.

(** [[x] * n] *)
Definition py_repeat {A} (x : A) (n : Z) : list A := replicate (Z.to_nat n) x.

(** [text.endswith(suffix)] *)
Definition endswith (text suffix : string) : bool :=
  bool_decide (list_ascii_of_string suffix `suffix_of` list_ascii_of_string text).

(** ** Tensor operations *)

(** [t[:, :stop]] *)
Definition cols_upto (t : grid) (stop : Z) : grid :=
  let k := slice_stop (ncols t) stop in
  Grid k (map (take k) (trows t)).

(** [t[:, i]], a one-dimensional tensor with one entry per row. *)
Definition column (t : grid) (i : Z) : result (list Z) :=
  j ← index_resolve (ncols t) i;
  Ok (map (fun r => nth j r 0) (trows t)).

Fixpoint chunks (m w : nat) (v : list Z) : list (list Z) :=
  match m with
  | O => []
  | S m' => take w v :: chunks m' w (drop w v)
  end.

(** [v.view(m, -1)] of a one-dimensional tensor: [m] must be a positive
    size that divides the number of entries. *)
Definition view_rows (v : list Z) (m : Z) : result grid :=
  if m <=? 0 then Err RuntimeError
  else if Z.of_nat (length v) mod m =? 0 then
    let w := Z.to_nat (Z.of_nat (length v) / m) in
    Ok (Grid w (chunks (Z.to_nat m) w v))
  else Err RuntimeError.

(** [torch.concat([m for _ in range(n)])] *)
Definition concat_copies (m : option mask) (n : Z) : result mask :=
  if n <=? 0 then Err RuntimeError
  else match m with
       | None => Err TypeError
       | Some a => Ok (concat (replicate (Z.to_nat n) a))
       end.

(** [torch.cuda.LongTensor(rows)] of a list of lists.  The width is taken
    from the first row: when that row is empty the tensor has no column,
    whatever the other rows hold; otherwise every row must have the length
    of the first. *)
Definition LongTensor (rows : list (list Z)) : result grid :=
  match rows with
  | [] => Ok (Grid 0 [])
  | [] :: _ => Ok (Grid 0 (map (fun _ => []) rows))
  | r :: _ =>
      if forallb (fun r' => Nat.eqb (length r') (length r)) rows
      then Ok (Grid (length r) rows)
      else Err ValueError
  end.

(** ** The collaborators: tokenizer, configuration, model *)

(** [tok_ident] stands for the identity of the tokenizer object, which is
    what [is] / [is not] compare. *)
Record Tokenizer := {
  tok_ident : nat;
  text_to_ids : string -> list Z;
  ids_to_text : list Z -> string;
  tokenize : string -> list Z;
  bos_id : Z;
  eos_id : Z;
  unk_id : Z
}.

(** [position_embedding_type] is [None] when the key is not set. *)
Record Config := {
  position_embedding_type : option string;
  encoder_seq_length : Z;
  hidden_size : Z
}.

(** The model object.  The four [isinstance_] fields are the outcomes of the
    [isinstance] tests of the dispatcher against classes defined elsewhere;
    [frozen_model] is the configuration [model.frozen_model.cfg] of a
    prompt-learning model; [megatron_lm_compatible] is
    [model.model.megatron_lm_compatible]; [model_repr] is what [f'{model}']
    prints. *)
Record Model := {
  cfg : Config;
  frozen_model : Config;
  tokenizer : Tokenizer;
  pseudo_token_ids_start : option Z;
  megatron_lm_compatible : bool;
  model_repr : string;
  isinstance_MegatronNevaModel : bool;
  isinstance_MegatronGPTPromptLearningModel : bool;
  isinstance_MegatronGPTModel : bool;
  isinstance_MegatronRetrievalModel : bool
}.

(** The four strategy classes defined in the file. *)
Inductive Variant := GPT | Neva | PromptLearning | Retro.

(** The memo kept in [self._end_of_generation_cache]: the tokenizer it was
    built for, the end strings known to be a single token, and the end
    strings known to need a string comparison. *)
Record Cache := {
  cache_tokenizer : Tokenizer;
  cache_end_string_to_token : gmap string Z;
  cache_end_strings_to_check : gset string
}.

(** The attributes of a strategy object.  [attention_mask] and
    [position_ids] are those stored by [init_batch]; [task_ids] belongs to
    the prompt-learning strategy, the two [neighbor_] attributes to the
    retrieval strategy. *)
Record Strategy := {
  model : Model;
  attention_mask : option mask;
  position_ids : grid;
  task_ids : value;
  neighbor_attention_mask : value;
  neighbor_position_ids : value;
  _end_of_generation_cache : option Cache
}.

Definition set_end_of_generation_cache (self : Strategy) (c : option Cache) : Strategy :=
  {| model := model self;
     attention_mask := attention_mask self;
     position_ids := position_ids self;
     task_ids := task_ids self;
     neighbor_attention_mask := neighbor_attention_mask self;
     neighbor_position_ids := neighbor_position_ids self;
     _end_of_generation_cache := c |}.

(** What a method does to the outside: calls to the tokenizer and
    warnings. *)
Inductive event :=
| TextToIds (text : string)
| IdsToText (ids : list Z)
| Warn (msg : string).

(** The text representation of [eos_id]. *)
Definition END_OF_SEQ : string := "<|endoftext|>".

(** ** The base class *)

Module TextGenerationStrategy.

(** The local variables of the loop of
    [_get_end_of_generation_tokens_and_strings], together with the cache
    dictionary the loop updates in place ([end_string_to_token] is an alias
    of the dictionary stored in the cache). *)
Record resolution := {
  res_cache : Cache;
  end_tokens : gset Z;
  end_strings_to_check : list string
}.

Definition no_special_token_warning (end_string : string) : string :=
  "The end string '" +:+ end_string +:+
  "' has no associated special token: this may slow down generation (consider using a different tokenizer or modifying `end_strings`)".

(** The test of the discovery heuristic:
    [len(ids_with_end_string) == len(ids_ref) + 1 and
     ids_with_end_string[:-1] == ids_ref]. *)
Definition one_extra_token (ids_ref ids_with_end_string : list Z) : bool :=
  bool_decide (length ids_with_end_string = (length ids_ref + 1)%nat)
  && bool_decide (py_slice ids_with_end_string 0 (-1) = ids_ref).

(** One iteration of [for end_string in end_strings]. *)
Definition resolve_end_string (tk : Tokenizer) (end_string : string)
    (st : resolution) : list event * resolution :=
  match cache_end_string_to_token (res_cache st) !! end_string with
  | Some t =>
      ([], {| res_cache := res_cache st;
              end_tokens := end_tokens st ∪ {[t]};
              end_strings_to_check := end_strings_to_check st |})
  | None =>
      if bool_decide (end_string ∈ cache_end_strings_to_check (res_cache st)) then
        ([], {| res_cache := res_cache st;
                end_tokens := end_tokens st;
                end_strings_to_check := end_strings_to_check st ++ [end_string] |})
      else
        let ids_ref := text_to_ids tk "<extra_id_1>" in
        let ids_with_end_string := text_to_ids tk ("<extra_id_1>" +:+ end_string) in
        let calls := [TextToIds "<extra_id_1>"; TextToIds ("<extra_id_1>" +:+ end_string)] in
        if one_extra_token ids_ref ids_with_end_string then
          (* [ids_with_end_string[-1]]: the list is not empty here *)
          let t := List.last ids_with_end_string 0 in
          (calls,
           {| res_cache :=
                {| cache_tokenizer := cache_tokenizer (res_cache st);
                   cache_end_string_to_token :=
                     <[end_string := t]> (cache_end_string_to_token (res_cache st));
                   cache_end_strings_to_check :=
                     cache_end_strings_to_check (res_cache st) |};
              end_tokens := end_tokens st ∪ {[t]};
              end_strings_to_check := end_strings_to_check st |})
        else
          (calls ++ [Warn (no_special_token_warning end_string)],
           {| res_cache :=
                {| cache_tokenizer := cache_tokenizer (res_cache st);
                   cache_end_string_to_token :=
                     cache_end_string_to_token (res_cache st);
                   cache_end_strings_to_check :=
                     cache_end_strings_to_check (res_cache st) ∪ {[end_string]} |};
              end_tokens := end_tokens st;
              end_strings_to_check := end_strings_to_check st ++ [end_string] |})
  end.

Fixpoint resolve_end_strings (tk : Tokenizer) (end_strings : list string)
    (st : resolution) : list event * resolution :=
  match end_strings with
  | [] => ([], st)
  | end_string :: rest =>
      let '(tr1, st1) := resolve_end_string tk end_string st in
      let '(tr2, st2) := resolve_end_strings tk rest st1 in
      (tr1 ++ tr2, st2)
  end.

(** The cache built when there is none or when it was built for another
    tokenizer object. *)
Definition fresh_cache (tk : Tokenizer) (eod_id : Z) : Cache :=
  {| cache_tokenizer := tk;
     cache_end_string_to_token := {[ END_OF_SEQ := eod_id ]};
     cache_end_strings_to_check := ∅ |}.

(** [self._end_of_generation_cache is None or
     self._end_of_generation_cache["tokenizer"] is not tokenizer] *)
Definition cache_is_stale (c : option Cache) (tk : Tokenizer) : bool :=
  match c with
  | None => true
  | Some c => negb (Nat.eqb (tok_ident (cache_tokenizer c)) (tok_ident tk))
  end.

Definition current_cache (self : Strategy) (eod_id : Z) : Cache :=
  match _end_of_generation_cache self with
  | Some c =>
      if cache_is_stale (Some c) (tokenizer (model self))
      then fresh_cache (tokenizer (model self)) eod_id
      else c
  | None => fresh_cache (tokenizer (model self)) eod_id
  end.

Definition _get_end_of_generation_tokens_and_strings (self : Strategy)
    (eod_id : Z) (end_strings : list string)
    : Strategy * list event * (gset Z * list string) :=
  let tk := tokenizer (model self) in
  let '(tr, st) :=
    resolve_end_strings tk end_strings
      {| res_cache := current_cache self eod_id;
         end_tokens := {[eod_id]};
         end_strings_to_check := [] |} in
  (set_end_of_generation_cache self (Some (res_cache st)), tr,
   (end_tokens st, end_strings_to_check st)).

(** [for idx, token_seq in enumerate(tokens)]: decode the row, then
    [is_end[idx] |= any(text.endswith(s) for s in end_strings_to_check)]. *)
Fixpoint suffix_checks (tk : Tokenizer) (strs : list string)
    (rows : list (list Z)) (idx : nat) (is_end : list bool)
    : list event * result (list bool) :=
  match rows with
  | [] => ([], Ok is_end)
  | token_seq :: rest =>
      let text := ids_to_text tk token_seq in
      match is_end !! idx with
      | None => ([IdsToText token_seq], Err IndexError)
      | Some b =>
          let '(tr, r) :=
            suffix_checks tk strs rest (S idx)
              (<[idx := b || existsb (endswith text) strs]> is_end) in
          (IdsToText token_seq :: tr, r)
      end
  end.

(** [(len(end_strings) == 1 and end_strings[0] == END_OF_SEQ) or
     not end_strings] *)
Definition only_end_of_document (end_strings : list string) : bool :=
  (bool_decide (length end_strings = 1%nat)
   && bool_decide (end_strings !! 0%nat = Some END_OF_SEQ))
  || bool_decide (end_strings = []).

Definition end_of_generation_condition (self : Strategy) (tokens : grid)
    (prev : list Z) (eod_id : Z) (end_strings : list string)
    : Strategy * list event * result (list bool) :=
  if only_end_of_document end_strings then
    (self, [], Ok (map (fun p => p =? eod_id) prev))
  else
    let '(self', tr, (end_tokens, end_strings_to_check)) :=
      _get_end_of_generation_tokens_and_strings self eod_id end_strings in
    if bool_decide (end_tokens = ∅) then (self', tr, Err AssertionError)
    else
      let is_end := map (fun p => bool_decide (p ∈ end_tokens)) prev in
      match end_strings_to_check with
      | [] => (self', tr, Ok is_end)
      | _ :: _ =>
          let '(tr2, r) :=
            suffix_checks (tokenizer (model self)) end_strings_to_check
              (trows tokens) 0 is_end in
          (self', tr ++ tr2, r)
      end.

(** [post_process] of the base class has an empty body: both tensors are
    left as they are. *)
Definition post_process (self : Strategy) (tokens : grid) (new_tokens : list Z)
    (context_length : Z) : grid * list Z :=
  (tokens, new_tokens).

(** The part of [prepare_batch_at_step] that every strategy class repeats:
    the choice between the whole context and its last column, and the
    replicated attention mask. *)
Definition select_step (self : Strategy) (tokens : grid)
    (micro_batch_size step context_length : Z) : result (bool * grid * grid) :=
  if step =? 0 then
    Ok (true, cols_upto tokens context_length,
        cols_upto (position_ids self) context_length)
  else
    c ← column tokens (context_length - 1);
    tokens2use ← view_rows c micro_batch_size;
    p ← column (position_ids self) (context_length - 1);
    positions2use ← view_rows p micro_batch_size;
    Ok (false, tokens2use, positions2use).

Definition attention_mask_repeat (self : Strategy) (micro_batch_size : Z)
    (compute_attention_mask : bool) : result value :=
  if compute_attention_mask then
    m ← concat_copies (attention_mask self) micro_batch_size;
    Ok (VMask m)
  else Ok VNone.

End TextGenerationStrategy.

(** ** The strategy classes *)

(** [cfg.get("position_embedding_type", "learned_absolute")] *)
Definition get_position_embedding_type (c : Config) : string :=
  match position_embedding_type c with
  | Some s => s
  | None => "learned_absolute"
  end.

Module GPTModelTextGenerationStrategy.

Definition clip_max_len (self : Strategy) (maxlen : Z) : Z :=
  if String.eqb (get_position_embedding_type (cfg (model self))) "learned_absolute" then
    if maxlen >? encoder_seq_length (cfg (model self)) + 1
    then encoder_seq_length (cfg (model self)) + 1
    else maxlen
  else maxlen.

Definition prepare_batch_at_step (self : Strategy) (tokens : grid)
    (maxlen micro_batch_size step context_length : Z)
    (compute_attention_mask : bool) : result (list value * list Z) :=
  '(set_inference_key_value_memory, tokens2use, positions2use) ←
    TextGenerationStrategy.select_step self tokens micro_batch_size step context_length;
  attention_mask_repeat ←
    TextGenerationStrategy.attention_mask_repeat self micro_batch_size compute_attention_mask;
  let setkey_value_array := VBools (py_repeat set_inference_key_value_memory micro_batch_size) in
  let len_array := VVec (py_repeat maxlen micro_batch_size) in
  Ok ([VGrid tokens2use; attention_mask_repeat; VGrid positions2use;
       setkey_value_array; len_array],
      [Z.of_nat (ncols tokens2use); micro_batch_size; hidden_size (cfg (model self))]).

Definition post_process := TextGenerationStrategy.post_process.

End GPTModelTextGenerationStrategy.

Module NevaModelTextGenerationStrategy.

Definition clip_max_len (self : Strategy) (maxlen : Z) : Z :=
  if maxlen >? encoder_seq_length (cfg (model self)) + 1
  then encoder_seq_length (cfg (model self)) + 1
  else maxlen.

Definition prepare_batch_at_step (self : Strategy) (tokens : grid)
    (maxlen micro_batch_size step context_length : Z)
    (compute_attention_mask : bool) (media : value)
    : result (list value * list Z) :=
  '(set_inference_key_value_memory, tokens2use, positions2use) ←
    TextGenerationStrategy.select_step self tokens micro_batch_size step context_length;
  attention_mask_repeat ←
    TextGenerationStrategy.attention_mask_repeat self micro_batch_size compute_attention_mask;
  let setkey_value_array := VBools (py_repeat set_inference_key_value_memory micro_batch_size) in
  let len_array := VVec (py_repeat maxlen micro_batch_size) in
  Ok ([VGrid tokens2use; attention_mask_repeat; VGrid positions2use; media;
       setkey_value_array; len_array],
      [Z.of_nat (ncols tokens2use); micro_batch_size; hidden_size (cfg (model self))]).

Definition post_process := TextGenerationStrategy.post_process.

End NevaModelTextGenerationStrategy.

Module PromptLearningModelTextGenerationStrategy.

Definition clip_max_len (self : Strategy) (maxlen : Z) : Z :=
  if maxlen >? encoder_seq_length (frozen_model (model self)) + 1
  then encoder_seq_length (frozen_model (model self)) + 1
  else maxlen.

Definition prepare_batch_at_step (self : Strategy) (tokens : grid)
    (maxlen micro_batch_size step context_length : Z)
    (compute_attention_mask : bool) : result (list value * list Z) :=
  '(set_inference_key_value_memory, tokens2use, positions2use) ←
    TextGenerationStrategy.select_step self tokens micro_batch_size step context_length;
  attention_mask_repeat ←
    TextGenerationStrategy.attention_mask_repeat self micro_batch_size compute_attention_mask;
  let setkey_value_array := VBools (py_repeat set_inference_key_value_memory micro_batch_size) in
  let len_array := VVec (py_repeat maxlen micro_batch_size) in
  Ok ([VGrid tokens2use; attention_mask_repeat; VGrid positions2use; task_ids self;
       setkey_value_array; len_array],
      [Z.of_nat (ncols tokens2use); micro_batch_size;
       hidden_size (frozen_model (model self))]).

(** [x[x >= pseudo_token_ids_start] = tokenizer.unk_id], entry by entry. *)
Definition replace_pseudo_token (pseudo_token_ids_start unk : Z) (x : Z) : Z :=
  if x >=? pseudo_token_ids_start then unk else x.

(** Both tensors are updated in place; the pair returned is their contents
    after the call.  [tokens[:, :context_length]] is a view of [tokens], so
    the masked assignment writes into the leading columns of [tokens]. *)
Definition post_process (self : Strategy) (tokens : grid) (new_tokens : list Z)
    (context_length : Z) : grid * list Z :=
  match pseudo_token_ids_start (model self) with
  | Some pseudo_token_ids_start =>
      let unk := unk_id (tokenizer (model self)) in
      let k := slice_stop (ncols tokens) context_length in
      (Grid (ncols tokens)
         (map (fun r => map (replace_pseudo_token pseudo_token_ids_start unk) (take k r)
                        ++ drop k r)
              (trows tokens)),
       map (replace_pseudo_token pseudo_token_ids_start unk) new_tokens)
  | None => (tokens, new_tokens)
  end.

End PromptLearningModelTextGenerationStrategy.

(** The keys read from the [retro_args] dictionary. *)
Record RetroArgs := {
  retro_gpt_retrieved_length : Z;
  retro_num_neighbors : Z;
  ft_neighbours : Z;
  reuse_top : bool
}.

Module RetroModelTextGenerationStrategy.

Definition clip_max_len (self : Strategy) (maxlen : Z) : Z :=
  if String.eqb (get_position_embedding_type (cfg (model self))) "learned_absolute" then
    if maxlen >? encoder_seq_length (cfg (model self)) + 1
    then encoder_seq_length (cfg (model self)) + 1
    else maxlen
  else maxlen.

(** An exception object is true when tested, so [assert ValueError(...)]
    tests a true value. *)
Definition truth_of_exception (e : py_error) : bool := true.

Definition py_assert (b : bool) : result unit :=
  if b then Ok tt else Err AssertionError.

Definition pad_neighbour (eos : Z) (r : Z) (neighbour_tokens : list Z) : list Z :=
  if Z.of_nat (length neighbour_tokens) >=? r then py_slice neighbour_tokens 0 r
  else neighbour_tokens ++ py_repeat eos (r - Z.of_nat (length neighbour_tokens)).

Definition tokenize_neighbors_batch (self : Strategy) (neighbors : list string)
    (retro_args : RetroArgs) : result grid :=
  let tokenizer := tokenizer (model self) in
  let r := retro_gpt_retrieved_length retro_args in
  let retro_num_neighbors := retro_num_neighbors retro_args in
  let ft_neighbours := ft_neighbours retro_args in
  let neighbors_tokens := map (tokenize tokenizer) neighbors in
  let valid_neighbours_tokens :=
    if reuse_top retro_args then py_slice neighbors_tokens 0 retro_num_neighbors
    else py_slice neighbors_tokens ft_neighbours (retro_num_neighbors + ft_neighbours) in
  let padded_valid_neighbours_tokens :=
    map (pad_neighbour (eos_id tokenizer) r) valid_neighbours_tokens in
  _ ← (if Z.of_nat (length padded_valid_neighbours_tokens) <? retro_num_neighbors
       then py_assert (truth_of_exception ValueError)
       else Ok tt);
  LongTensor padded_valid_neighbours_tokens.

(** [extra] holds the keyword arguments of the call. *)
Definition prepare_batch_at_step (self : Strategy) (tokens : grid)
    (maxlen micro_batch_size step context_length : Z)
    (compute_attention_mask : bool) (extra : gmap string value)
    : result (list value * list Z) :=
  '(set_inference_key_value_memory, tokens2use, positions2use) ←
    TextGenerationStrategy.select_step self tokens micro_batch_size step context_length;
  attention_mask_repeat ←
    TextGenerationStrategy.attention_mask_repeat self micro_batch_size compute_attention_mask;
  let setkey_value_array := VBools (py_repeat set_inference_key_value_memory micro_batch_size) in
  let len_array := VVec (py_repeat maxlen micro_batch_size) in
  neighbors_tokens ←
    match extra !! "neighbors_tokens" with
    | Some v => Ok v
    | None => Err (KeyError "neighbors_tokens")
    end;
  Ok ([VGrid tokens2use; attention_mask_repeat; VGrid positions2use;
       neighbors_tokens; neighbor_attention_mask self; neighbor_position_ids self;
       setkey_value_array; len_array],
      [Z.of_nat (ncols tokens2use); micro_batch_size; hidden_size (cfg (model self))]).

Definition post_process := TextGenerationStrategy.post_process.

End RetroModelTextGenerationStrategy.

(** The method of whichever class the strategy object belongs to.  [media]
    is read by the multimodal class only, [extra] by the retrieval class
    only. *)
Definition clip_max_len (v : Variant) (self : Strategy) (maxlen : Z) : Z :=
  match v with
  | GPT => GPTModelTextGenerationStrategy.clip_max_len self maxlen
  | Neva => NevaModelTextGenerationStrategy.clip_max_len self maxlen
  | PromptLearning => PromptLearningModelTextGenerationStrategy.clip_max_len self maxlen
  | Retro => RetroModelTextGenerationStrategy.clip_max_len self maxlen
  end.

Definition prepare_batch_at_step (v : Variant) (self : Strategy) (tokens : grid)
    (maxlen micro_batch_size step context_length : Z)
    (compute_attention_mask : bool) (media : value) (extra : gmap string value)
    : result (list value * list Z) :=
  match v with
  | GPT =>
      GPTModelTextGenerationStrategy.prepare_batch_at_step self tokens maxlen
        micro_batch_size step context_length compute_attention_mask
  | Neva =>
      NevaModelTextGenerationStrategy.prepare_batch_at_step self tokens maxlen
        micro_batch_size step context_length compute_attention_mask media
  | PromptLearning =>
      PromptLearningModelTextGenerationStrategy.prepare_batch_at_step self tokens maxlen
        micro_batch_size step context_length compute_attention_mask
  | Retro =>
      RetroModelTextGenerationStrategy.prepare_batch_at_step self tokens maxlen
        micro_batch_size step context_length compute_attention_mask extra
  end.

Definition post_process (v : Variant) (self : Strategy) (tokens : grid)
    (new_tokens : list Z) (context_length : Z) : grid * list Z :=
  match v with
  | GPT => GPTModelTextGenerationStrategy.post_process self tokens new_tokens context_length
  | Neva => NevaModelTextGenerationStrategy.post_process self tokens new_tokens context_length
  | PromptLearning =>
      PromptLearningModelTextGenerationStrategy.post_process self tokens new_tokens context_length
  | Retro => RetroModelTextGenerationStrategy.post_process self tokens new_tokens context_length
  end.

(** ** The dispatcher *)

(** The classes the dispatcher can instantiate.  The three retrieval classes
    are the ones it imports from [retro_inference_strategies_legacy]; inside
    the dispatcher the imported [RetroModelTextGenerationStrategy] hides the
    class of that name defined in this file. *)
Inductive StrategyClass :=
| NevaStrategy
| PromptLearningStrategy
| GPTStrategy
| LegacyRetroStrategy
| LegacyRetroQAStrategy
| LegacyRetroFileQAStrategy.

(** The strategy object a constructor call [cls(model, **kwargs)] builds:
    its class, the model it holds and the keyword arguments its [__init__]
    received. *)
Record Construction := {
  cls : StrategyClass;
  cls_model : Model;
  kwargs : gmap string value
}.

(** The keyword parameters of [__init__], after [self] and [model], for the
    classes defined in this file: none for the multimodal and GPT classes,
    [task_ids] for the prompt-learning class.  The retrieval classes are
    defined elsewhere. *)
Definition init_parameters (c : StrategyClass) : option (gset string) :=
  match c with
  | NevaStrategy => Some ∅
  | GPTStrategy => Some ∅
  | PromptLearningStrategy => Some {[ "task_ids" ]}
  | LegacyRetroStrategy => None
  | LegacyRetroQAStrategy => None
  | LegacyRetroFileQAStrategy => None
  end.

(** The call [cls(model, **kwargs)].  For a class of this file the keywords
    must be exactly the parameters of its [__init__]: a missing or an
    unexpected keyword raises [TypeError]. *)
Definition construct (c : StrategyClass) (model : Model)
    (kwargs : gmap string value) : result Construction :=
  match init_parameters c with
  | Some parameters =>
      if bool_decide (dom kwargs = parameters)
      then Ok {| cls := c; cls_model := model; kwargs := kwargs |}
      else Err TypeError
  | None => Ok {| cls := c; cls_model := model; kwargs := kwargs |}
  end.

Definition model_inference_strategy_dispatcher (model : Model)
    (args : gmap string value) : result Construction :=
  if isinstance_MegatronNevaModel model then
    construct NevaStrategy model ∅
  else if isinstance_MegatronGPTPromptLearningModel model then
    construct PromptLearningStrategy model args
  else if isinstance_MegatronGPTModel model then
    construct GPTStrategy model ∅
  else if isinstance_MegatronRetrievalModel model then
    match args !! "strategy" with
    | None => Err (KeyError "strategy")
    | Some strategy_name =>
        let args := delete "strategy" args in
        let args := <["megatron_lm_compatible" := VBool (megatron_lm_compatible model)]> args in
        if bool_decide (strategy_name = VStr "RetroModelTextGenerationStrategy") then
          construct LegacyRetroStrategy model args
        else if bool_decide (strategy_name = VStr "RetroQAModelTextGenerationStrategy") then
          construct LegacyRetroQAStrategy model args
        else if bool_decide (strategy_name = VStr "RetroFileQAModelTextGenerationStrategy") then
          construct LegacyRetroFileQAStrategy model args
        else Err ValueError
    end
  else Err ValueError.

(** ** A concrete session, used to run the definitions *)

Module Session.

(** A tokenizer that knows ["Done"] as the single token [7] and spells
    every other text with several tokens. *)
Definition tk : Tokenizer :=
  {| tok_ident := 1;
     text_to_ids := fun s =>
       if String.eqb s "<extra_id_1>" then [1]
       else if String.eqb s "<extra_id_1>Done" then [1; 7]
       else [1; 2; 3];
     ids_to_text := fun ids =>
       if bool_decide (ids = [5; 6; 9]) then "please STOP" else "go on";
     tokenize := fun s => [Z.of_nat (String.length s)];
     bos_id := 0; eos_id := 9; unk_id := 3 |}.

Definition config (pet : option string) : Config :=
  {| position_embedding_type := pet; encoder_seq_length := 8; hidden_size := 16 |}.

Definition frozen_config : Config :=
  {| position_embedding_type := None; encoder_seq_length := 5; hidden_size := 32 |}.

Definition a_model (pet : option string) (neva pl gpt retrieval : bool) : Model :=
  {| cfg := config pet;
     frozen_model := frozen_config;
     tokenizer := tk;
     pseudo_token_ids_start := Some 50000;
     megatron_lm_compatible := false;
     model_repr := "model";
     isinstance_MegatronNevaModel := neva;
     isinstance_MegatronGPTPromptLearningModel := pl;
     isinstance_MegatronGPTModel := gpt;
     isinstance_MegatronRetrievalModel := retrieval |}.

Definition a_strategy (m : Model) : Strategy :=
  {| model := m;
     attention_mask := Some [[[[true]]]];
     position_ids := Grid 3 [[0; 1; 2]; [0; 1; 2]];
     task_ids := VVec [4; 4];
     neighbor_attention_mask := VNone;
     neighbor_position_ids := VGrid (Grid 2 [[0; 1]]);
     _end_of_generation_cache := None |}.

Definition gpt_strategy : Strategy := a_strategy (a_model None false false true false).

Definition rope_strategy : Strategy :=
  a_strategy (a_model (Some "rope") false false true false).

Definition tokens : grid := Grid 3 [[5; 6; 9]; [7; 8; 9]].

(** The state of the resolution loop on entry, with a newly built cache. *)
Definition start : TextGenerationStrategy.resolution :=
  {| TextGenerationStrategy.res_cache := TextGenerationStrategy.fresh_cache tk 9;
     TextGenerationStrategy.end_tokens := {[ 9 ]};
     TextGenerationStrategy.end_strings_to_check := [] |}.

(** A strategy whose cache was built for another tokenizer object. *)
Definition other_tk : Tokenizer :=
  {| tok_ident := 2;
     text_to_ids := text_to_ids tk;
     ids_to_text := ids_to_text tk;
     tokenize := tokenize tk;
     bos_id := 0; eos_id := 9; unk_id := 3 |}.

Definition stale_strategy : Strategy :=
  set_end_of_generation_cache gpt_strategy
    (Some {| cache_tokenizer := other_tk;
             cache_end_string_to_token := {[ "STOP" := 4 ]};
             cache_end_strings_to_check := {[ "Done" ]} |}).

End Session.

(** ** What the claims say, in terms of tensor entries *)

(** [t] is made of the first [c] columns of [src]. *)
Definition leading_columns (t src : grid) (c : Z) : Prop :=
  grid_wf t ∧
  ncols t = Z.to_nat c ∧
  nrows t = nrows src ∧
  ∀ i j, (j < Z.to_nat c)%nat → grid_get t i j = grid_get src i j.

(** [t] has shape [rows, 1] and holds column [col] of [src]. *)
Definition single_column (t src : grid) (rows col : Z) : Prop :=
  grid_wf t ∧
  ncols t = 1%nat ∧
  nrows t = Z.to_nat rows ∧
  ∀ i, (i < Z.to_nat rows)%nat →
       is_Some (grid_get t i 0) ∧
       grid_get t i 0 = grid_get src i (Z.to_nat col).

(** What the caller of [prepare_batch_at_step] provides: a token grid and
    position ids of the same shape with one row per sequence of the
    micro-batch, an attention mask when one is asked for, and the neighbour
    tokens for the retrieval strategy. *)
Definition caller_contract (v : Variant) (self : Strategy) (tokens : grid)
    (micro_batch_size : Z) (compute_attention_mask : bool)
    (extra : gmap string value) : Prop :=
  grid_wf tokens ∧ grid_wf (position_ids self) ∧
  0 < micro_batch_size ∧
  nrows tokens = Z.to_nat micro_batch_size ∧
  nrows (position_ids self) = Z.to_nat micro_batch_size ∧
  ncols (position_ids self) = ncols tokens ∧
  (compute_attention_mask = true → is_Some (attention_mask self)) ∧
  (v = Retro → is_Some (extra !! "neighbors_tokens")).

(** The additional inputs of each strategy, in the order of the
    specification: none for the plain decoder, the media tensor for the
    multimodal strategy, the task ids for the prompt-learning strategy, and
    the neighbour tokens, neighbour attention mask and neighbour position
    ids for the retrieval strategy. *)
Definition extra_inputs (v : Variant) (self : Strategy) (media : value)
    (extra : gmap string value) : option (list value) :=
  match v with
  | GPT => Some []
  | Neva => Some [media]
  | PromptLearning => Some [task_ids self]
  | Retro =>
      match extra !! "neighbors_tokens" with
      | Some neighbors_tokens =>
          Some [neighbors_tokens; neighbor_attention_mask self;
                neighbor_position_ids self]
      | None => None
      end
  end.

(** The configuration each strategy reads [hidden_size] from. *)
Definition hidden_size_of (v : Variant) (self : Strategy) : Z :=
  match v with
  | PromptLearning => hidden_size (frozen_model (model self))
  | _ => hidden_size (cfg (model self))
  end.

(** The cache has an answer for the end string [s]: either a token or the
    mark that a string comparison is needed. *)
Definition resolved (c : Cache) (s : string) : Prop :=
  is_Some (cache_end_string_to_token c !! s) ∨ s ∈ cache_end_strings_to_check c.

(** ** The forward pass of one step *)

(** [seq[i]] on a list. *)
Definition py_getitem {A} (l : list A) (i : Z) : result A :=
  j ← index_resolve (length l) i;
  match l !! j with
  | Some x => Ok x
  | None => Err IndexError
  end.

Section ForwardStep.

Variable Output : Type.

(** The function returned by [get_forward_backward_func()], as
    [forward_step] calls it: it receives the contents of the data iterator,
    [num_microbatches], [forward_only], [seq_length] and [micro_batch_size];
    the forward function and the model shard it also receives are fixed by
    the strategy object. *)
Variable fwd_bwd_function : list (list value) → Z → bool → Z → Z → result Output.

Variable get_num_microbatches : Z.

(** [forward_step] of the base class; the retrieval class repeats it word
    for word. *)
Definition forward_step (batch : list value) (tensor_shape : list Z)
    : result Output :=
  seq_length ← py_getitem tensor_shape 0;
  micro_batch_size ← py_getitem tensor_shape 1;
  fwd_bwd_function [batch] get_num_microbatches true seq_length micro_batch_size.

End ForwardStep.

(** ** What the cache answers *)

(** The token that the discovery heuristic of
    [_get_end_of_generation_tokens_and_strings] finds for an end string, if
    it finds one. *)
Definition heuristic_token (tk : Tokenizer) (end_string : string) : option Z :=
  let ids_ref := text_to_ids tk "<extra_id_1>" in
  let ids_with_end_string := text_to_ids tk ("<extra_id_1>" +:+ end_string) in
  if TextGenerationStrategy.one_extra_token ids_ref ids_with_end_string
  then Some (List.last ids_with_end_string 0)
  else None.

(** How an end string comes out of the resolution loop for a given cache:
    as a token ([Some]) or as a string to compare ([None]). *)
Definition outcome (tk : Tokenizer) (c : Cache) (end_string : string) : option Z :=
  match cache_end_string_to_token c !! end_string with
  | Some t => Some t
  | None =>
      if bool_decide (end_string ∈ cache_end_strings_to_check c) then None
      else heuristic_token tk end_string
  end.

(** The events of one run of the discovery heuristic on an end string: the
    two tokenizations, then the warning when no single token is found. *)
Definition probe_events (tk : Tokenizer) (end_string : string) : list event :=
  [TextToIds "<extra_id_1>"; TextToIds ("<extra_id_1>" +:+ end_string)]
  ++ match heuristic_token tk end_string with
     | Some _ => []
     | None => [Warn (TextGenerationStrategy.no_special_token_warning end_string)]
     end.

(** No end string is recorded both as a token and as a string to compare. *)
Definition cache_disjoint (c : Cache) : Prop :=
  ∀ s, s ∈ cache_end_strings_to_check c → cache_end_string_to_token c !! s = None.

(** * Properties *)

(** ** [clip_max_len] *)

Lemma clip_to_min (maxlen bound : Z) :
  (if maxlen >? bound then bound else maxlen) = Z.min maxlen bound.
Proof. destruct (Z.gtb_spec maxlen bound); lia. Qed.

Lemma learned_absolute_default (c : Config) :
  position_embedding_type c = None ∨
  position_embedding_type c = Some "learned_absolute" →
  String.eqb (get_position_embedding_type c) "learned_absolute" = true.
Proof.
  unfold get_position_embedding_type. intros [-> | ->]; reflexivity.
Qed.

Lemma other_position_embedding (c : Config) (s : string) :
  position_embedding_type c = Some s → s ≠ "learned_absolute" →
  String.eqb (get_position_embedding_type c) "learned_absolute" = false.
Proof.
  unfold get_position_embedding_type. intros -> Hs.
  by apply String.eqb_neq.
Qed.

(** C10: [clip_max_len] never returns more than [maxlen].  The GPT and
    retrieval strategies return [min(maxlen, encoder_seq_length + 1)] when
    [position_embedding_type] is unset or ["learned_absolute"], and [maxlen]
    itself for any other type; the multimodal and prompt-learning
    strategies always return the minimum, the latter with the
    [encoder_seq_length] of the frozen model. *)
Theorem clip_max_len_spec (v : Variant) (self : Strategy) (maxlen : Z) :
  clip_max_len v self maxlen <= maxlen ∧
  (v = GPT ∨ v = Retro →
     (position_embedding_type (cfg (model self)) = None ∨
      position_embedding_type (cfg (model self)) = Some "learned_absolute" →
        clip_max_len v self maxlen
        = Z.min maxlen (encoder_seq_length (cfg (model self)) + 1)) ∧
     (∀ s, position_embedding_type (cfg (model self)) = Some s →
           s ≠ "learned_absolute" →
        clip_max_len v self maxlen = maxlen)) ∧
  (v = Neva →
     clip_max_len v self maxlen
     = Z.min maxlen (encoder_seq_length (cfg (model self)) + 1)) ∧
  (v = PromptLearning →
     clip_max_len v self maxlen
     = Z.min maxlen (encoder_seq_length (frozen_model (model self)) + 1)).
Proof.
  split; [|split; [|split]].
  - destruct v; simpl;
      unfold GPTModelTextGenerationStrategy.clip_max_len,
        NevaModelTextGenerationStrategy.clip_max_len,
        PromptLearningModelTextGenerationStrategy.clip_max_len,
        RetroModelTextGenerationStrategy.clip_max_len;
      rewrite clip_to_min;
      try destruct (String.eqb _ _); lia.
  - intros Hv. split.
    + intros Hpet%learned_absolute_default.
      destruct Hv as [-> | ->]; simpl;
        unfold GPTModelTextGenerationStrategy.clip_max_len,
          RetroModelTextGenerationStrategy.clip_max_len;
        by rewrite Hpet, clip_to_min.
    + intros s Hs Hne.
      pose proof (other_position_embedding _ _ Hs Hne) as Hpet.
      destruct Hv as [-> | ->]; simpl;
        unfold GPTModelTextGenerationStrategy.clip_max_len,
          RetroModelTextGenerationStrategy.clip_max_len;
        by rewrite Hpet.
  - intros ->. simpl. apply clip_to_min.
  - intros ->. simpl. apply clip_to_min.
Qed.

(** With [encoder_seq_length = 8], a request for 20 positions is clipped to
    9 under learned absolute positions and kept under another type; the
    prompt-learning strategy clips to the frozen model's [5 + 1]. *)
Lemma clip_max_len_spec_witness :
  clip_max_len GPT Session.gpt_strategy 20 = 9 ∧
  clip_max_len Retro Session.rope_strategy 20 = 20 ∧
  clip_max_len Neva Session.rope_strategy 20 = 9 ∧
  clip_max_len PromptLearning Session.gpt_strategy 20 = 6.
Proof.
  split; [|split; [|split]].
  - destruct (clip_max_len_spec GPT Session.gpt_strategy 20) as (_ & H & _).
    destruct (H (or_introl eq_refl)) as [H1 _].
    rewrite (H1 (or_introl eq_refl)). reflexivity.
  - destruct (clip_max_len_spec Retro Session.rope_strategy 20) as (_ & H & _).
    destruct (H (or_intror eq_refl)) as [_ H2].
    apply (H2 "rope"); [reflexivity | discriminate].
  - destruct (clip_max_len_spec Neva Session.rope_strategy 20) as (_ & _ & H & _).
    rewrite (H eq_refl). reflexivity.
  - destruct (clip_max_len_spec PromptLearning Session.gpt_strategy 20)
      as (_ & _ & _ & H).
    rewrite (H eq_refl). reflexivity.
Defined.

(** ** The end-of-generation test: the simple scenario *)

(** C2: with no end string, or with the single end string
    ["<|endoftext|>"], [end_of_generation_condition] is the entrywise
    comparison of [prev] with [eod_id], whatever [tokens] holds; the
    tokenizer is not called and the strategy object, with its cache, is
    returned as it was. *)
Theorem end_of_generation_condition_simple_scenario
    (self : Strategy) (tokens : grid) (prev : list Z) (eod_id : Z) :
  TextGenerationStrategy.end_of_generation_condition self tokens prev eod_id []
  = (self, [], Ok ((fun p => bool_decide (p = eod_id)) <$> prev)) ∧
  TextGenerationStrategy.end_of_generation_condition self tokens prev eod_id
    [END_OF_SEQ]
  = (self, [], Ok ((fun p => bool_decide (p = eod_id)) <$> prev)).
Proof.
  assert (Heq : map (fun p => p =? eod_id) prev
                = (fun p => bool_decide (p = eod_id)) <$> prev).
  { apply map_ext. intros p.
    destruct (Z.eqb_spec p eod_id) as [-> | Hne].
    - by rewrite bool_decide_eq_true_2.
    - by rewrite bool_decide_eq_false_2. }
  split; unfold TextGenerationStrategy.end_of_generation_condition; simpl;
    by rewrite Heq.
Qed.

(** ** The dispatcher *)

Lemma construct_without_keywords (c : StrategyClass) (m : Model) :
  init_parameters c = Some ∅ →
  construct c m ∅ = Ok {| cls := c; cls_model := m; kwargs := ∅ |}.
Proof.
  intros Hc. unfold construct. rewrite Hc.
  by rewrite bool_decide_eq_true_2 by apply dom_empty_L.
Qed.

(** C7: a model of none of the four families is refused with a
    [ValueError]; so is a retrieval model whose [strategy] argument names
    none of the three retrieval strategies; a model of a supported family
    gets the strategy class of the first family it belongs to, in the order
    multimodal, prompt learning, GPT, retrieval.  The prompt-learning
    strategy is built from the keyword arguments of the call, which must be
    exactly [task_ids]: with any other keywords its constructor raises
    [TypeError]. *)
Theorem model_inference_strategy_dispatcher_spec
    (m : Model) (args : gmap string value) :
  (isinstance_MegatronNevaModel m = false →
   isinstance_MegatronGPTPromptLearningModel m = false →
   isinstance_MegatronGPTModel m = false →
   isinstance_MegatronRetrievalModel m = false →
   model_inference_strategy_dispatcher m args = Err ValueError) ∧
  (isinstance_MegatronNevaModel m = false →
   isinstance_MegatronGPTPromptLearningModel m = false →
   isinstance_MegatronGPTModel m = false →
   isinstance_MegatronRetrievalModel m = true →
   ∀ name, args !! "strategy" = Some (VStr name) →
     let retro_kwargs :=
       <["megatron_lm_compatible" := VBool (megatron_lm_compatible m)]>
         (delete "strategy" args) in
     (name ≠ "RetroModelTextGenerationStrategy" →
      name ≠ "RetroQAModelTextGenerationStrategy" →
      name ≠ "RetroFileQAModelTextGenerationStrategy" →
      model_inference_strategy_dispatcher m args = Err ValueError) ∧
     (name = "RetroModelTextGenerationStrategy" →
      model_inference_strategy_dispatcher m args
      = Ok {| cls := LegacyRetroStrategy; cls_model := m; kwargs := retro_kwargs |}) ∧
     (name = "RetroQAModelTextGenerationStrategy" →
      model_inference_strategy_dispatcher m args
      = Ok {| cls := LegacyRetroQAStrategy; cls_model := m; kwargs := retro_kwargs |}) ∧
     (name = "RetroFileQAModelTextGenerationStrategy" →
      model_inference_strategy_dispatcher m args
      = Ok {| cls := LegacyRetroFileQAStrategy; cls_model := m;
              kwargs := retro_kwargs |})) ∧
  (isinstance_MegatronNevaModel m = true →
   model_inference_strategy_dispatcher m args
   = Ok {| cls := NevaStrategy; cls_model := m; kwargs := ∅ |}) ∧
  (isinstance_MegatronNevaModel m = false →
   isinstance_MegatronGPTPromptLearningModel m = true →
   (dom args = {[ "task_ids" ]} →
    model_inference_strategy_dispatcher m args
    = Ok {| cls := PromptLearningStrategy; cls_model := m; kwargs := args |}) ∧
   (dom args ≠ {[ "task_ids" ]} →
    model_inference_strategy_dispatcher m args = Err TypeError)) ∧
  (isinstance_MegatronNevaModel m = false →
   isinstance_MegatronGPTPromptLearningModel m = false →
   isinstance_MegatronGPTModel m = true →
   model_inference_strategy_dispatcher m args
   = Ok {| cls := GPTStrategy; cls_model := m; kwargs := ∅ |}).
Proof.
  unfold model_inference_strategy_dispatcher.
  split; [|split; [|split; [|split]]].
  - by intros -> -> -> ->.
  - intros -> -> -> -> name ->. simpl.
    split; [|split; [|split]].
    + intros H1 H2 H3.
      rewrite !bool_decide_eq_false_2; [done | congruence..].
    + by intros ->.
    + by intros ->.
    + by intros ->.
  - intros ->. by apply construct_without_keywords.
  - intros -> ->. unfold construct. simpl. split; intros Hdom.
    + by rewrite bool_decide_eq_true_2.
    + by rewrite bool_decide_eq_false_2.
  - intros -> -> ->. by apply construct_without_keywords.
Qed.

(** A retrieval model asked for an unknown strategy is refused; asked for
    the question-answering strategy it gets that class; a prompt-learning
    model gets its strategy when called with [task_ids] and a [TypeError]
    when called without. *)
Lemma model_inference_strategy_dispatcher_spec_witness :
  model_inference_strategy_dispatcher
    (Session.a_model None false false false false) ∅ = Err ValueError ∧
  model_inference_strategy_dispatcher
    (Session.a_model None false false false true)
    {[ "strategy" := VStr "Beam" ]} = Err ValueError ∧
  cls <$> (match model_inference_strategy_dispatcher
                   (Session.a_model None false false false true)
                   {[ "strategy" := VStr "RetroQAModelTextGenerationStrategy" ]}
           with Ok c => Some c | Err _ => None end)
  = Some LegacyRetroQAStrategy ∧
  cls <$> (match model_inference_strategy_dispatcher
                   (Session.a_model None true false true false) ∅
           with Ok c => Some c | Err _ => None end)
  = Some NevaStrategy ∧
  cls <$> (match model_inference_strategy_dispatcher
                   (Session.a_model None false true false false)
                   {[ "task_ids" := VVec [4; 4] ]}
           with Ok c => Some c | Err _ => None end)
  = Some PromptLearningStrategy ∧
  model_inference_strategy_dispatcher
    (Session.a_model None false true false false) ∅ = Err TypeError.
Proof.
  split; [|split; [|split; [|split; [|split]]]].
  - apply (model_inference_strategy_dispatcher_spec
             (Session.a_model None false false false false) ∅); reflexivity.
  - destruct (model_inference_strategy_dispatcher_spec
                (Session.a_model None false false false true)
                {[ "strategy" := VStr "Beam" ]}) as (_ & H & _).
    destruct (H eq_refl eq_refl eq_refl eq_refl "Beam" eq_refl) as [H1 _].
    apply H1; discriminate.
  - destruct (model_inference_strategy_dispatcher_spec
                (Session.a_model None false false false true)
                {[ "strategy" := VStr "RetroQAModelTextGenerationStrategy" ]})
      as (_ & H & _).
    destruct (H eq_refl eq_refl eq_refl eq_refl
                "RetroQAModelTextGenerationStrategy" eq_refl)
      as (_ & _ & H2 & _).
    rewrite (H2 eq_refl). reflexivity.
  - destruct (model_inference_strategy_dispatcher_spec
                (Session.a_model None true false true false) ∅)
      as (_ & _ & H & _).
    rewrite (H eq_refl). reflexivity.
  - destruct (model_inference_strategy_dispatcher_spec
                (Session.a_model None false true false false)
                {[ "task_ids" := VVec [4; 4] ]})
      as (_ & _ & _ & H & _).
    destruct (H eq_refl eq_refl) as [Hok _].
    rewrite (Hok (dom_singleton_L _ _)). reflexivity.
  - destruct (model_inference_strategy_dispatcher_spec
                (Session.a_model None false true false false) ∅)
      as (_ & _ & _ & H & _).
    destruct (H eq_refl eq_refl) as [_ Herr].
    apply Herr. rewrite dom_empty_L. intros Hempty.
    assert (Hin : ("task_ids" : string) ∈ (∅ : gset string))
      by (rewrite Hempty; by apply elem_of_singleton).
    by apply not_elem_of_empty in Hin.
Defined.

(** ** Retrieval neighbours *)

Lemma slice_stop_nonneg (len : nat) (stop : Z) :
  0 <= stop → slice_stop len stop = Nat.min (Z.to_nat stop) len.
Proof.
  intros H. unfold slice_stop.
  destruct (Z.ltb_spec stop 0); lia.
Qed.

Lemma length_pad_neighbour (eos r : Z) (neighbour_tokens : list Z) :
  0 <= r →
  length (RetroModelTextGenerationStrategy.pad_neighbour eos r neighbour_tokens)
  = Z.to_nat r.
Proof.
  intros Hr. unfold RetroModelTextGenerationStrategy.pad_neighbour.
  destruct (Z.geb_spec (Z.of_nat (length neighbour_tokens)) r) as [Hge | Hlt].
  - unfold py_slice, slice_start. simpl.
    rewrite slice_stop_nonneg by done.
    rewrite length_take, length_drop. lia.
  - rewrite length_app. unfold py_repeat. rewrite length_replicate. lia.
Qed.

Lemma LongTensor_equal_rows (rows : list (list Z)) (w : nat) :
  Forall (fun r => length r = w) rows →
  ∃ g, LongTensor rows = Ok g ∧ trows g = rows.
Proof.
  intros Hall. destruct rows as [|r rows]; [by eexists|].
  destruct r as [|x r].
  - eexists. split; [reflexivity|]. simpl. f_equal.
    inversion Hall as [|? ? Hw Hrest]; subst. simpl in Hrest.
    clear Hall. induction Hrest as [|r rows Hr _ IH]; simpl; [done|].
    apply nil_length_inv in Hr. by rewrite Hr, IH.
  - assert (Hfa : forallb (fun r' => Nat.eqb (length r') (length (x :: r)))
                    ((x :: r) :: rows) = true).
    { apply forallb_forall. intros r' Hin%list_elem_of_In.
      rewrite Forall_forall in Hall.
      apply Nat.eqb_eq.
      rewrite (Hall r') by done.
      rewrite (Hall (x :: r)); [done | left]. }
    unfold LongTensor. rewrite Hfa. by eexists.
Qed.

(** Whatever the number of neighbours, [tokenize_neighbors_batch] returns a
    tensor, and each of its rows has [retro_gpt_retrieved_length] entries. *)
Lemma tokenize_neighbors_batch_returns (self : Strategy)
    (neighbors : list string) (retro_args : RetroArgs) :
  0 <= retro_gpt_retrieved_length retro_args →
  ∃ g, RetroModelTextGenerationStrategy.tokenize_neighbors_batch
         self neighbors retro_args = Ok g ∧
       Forall (fun row => length row
                          = Z.to_nat (retro_gpt_retrieved_length retro_args))
              (trows g).
Proof.
  intros Hr. unfold RetroModelTextGenerationStrategy.tokenize_neighbors_batch.
  set (valid := if reuse_top retro_args then _ else _).
  set (padded := map _ valid).
  assert (Hall : Forall (fun row => length row
                   = Z.to_nat (retro_gpt_retrieved_length retro_args)) padded).
  { subst padded. apply Forall_forall. intros row Hin.
    apply list_elem_of_In, in_map_iff in Hin as (x & <- & _).
    by apply length_pad_neighbour. }
  destruct (LongTensor_equal_rows padded _ Hall) as (g & Hg & Hrows).
  exists g. split.
  - destruct (_ <? _); simpl; exact Hg.
  - by rewrite Hrows.
Qed.

(** C6 (the code departs from it): one neighbour is supplied where
    [retro_num_neighbors = 2] are required, and [tokenize_neighbors_batch]
    returns a one-row tensor instead of failing; the row is padded with
    [eos_id] to the retrieved length 3. *)
Theorem tokenize_neighbors_batch_too_few :
  RetroModelTextGenerationStrategy.tokenize_neighbors_batch
    Session.gpt_strategy ["abc"]
    {| retro_gpt_retrieved_length := 3; retro_num_neighbors := 2;
       ft_neighbours := 0; reuse_top := true |}
  = Ok (Grid 3 [[3; 9; 9]]).
Proof. reflexivity. Qed.

(** ** Post-processing *)

Lemma map_is_fmap {A B} (f : A → B) (l : list A) : map f l = f <$> l.
Proof. reflexivity. Qed.

Lemma replace_pseudo_token_spec (start unk x : Z) :
  PromptLearningModelTextGenerationStrategy.replace_pseudo_token start unk x
  = if bool_decide (start <= x) then unk else x.
Proof.
  unfold PromptLearningModelTextGenerationStrategy.replace_pseudo_token.
  destruct (Z.geb_spec x start).
  - rewrite bool_decide_eq_true_2; [done | lia].
  - rewrite bool_decide_eq_false_2; [done | lia].
Qed.

(** Reading a row whose first [k] entries went through [f]. *)
Lemma lookup_map_take_drop {A} (f : A → A) (k : nat) (r : list A) (j : nat) (x : A) :
  r !! j = Some x →
  (map f (take k r) ++ drop k r) !! j = Some (if bool_decide (j < k)%nat then f x else x).
Proof.
  intros Hj. pose proof (lookup_lt_Some _ _ _ Hj) as Hlen.
  rewrite map_is_fmap.
  destruct (decide (j < k)%nat) as [Hlt | Hge].
  - rewrite bool_decide_eq_true_2 by done.
    rewrite lookup_app_l by (rewrite length_fmap, length_take; lia).
    by rewrite list_lookup_fmap, lookup_take_lt, Hj by done.
  - rewrite bool_decide_eq_false_2 by done.
    rewrite lookup_app_r by (rewrite length_fmap, length_take; lia).
    rewrite length_fmap, length_take, lookup_drop.
    replace (k + (j - k `min` length r))%nat with j by lia.
    done.
Qed.

(** C9: when [pseudo_token_ids_start] is set, [post_process] of the
    prompt-learning strategy replaces by [unk_id] every entry of
    [new_tokens], and every entry of the first [context_length] columns of
    [tokens], that is at or above the threshold, and keeps every other
    entry; [post_process] of the other strategies changes nothing. *)
Theorem post_process_spec (v : Variant) (self : Strategy) (tokens : grid)
    (new_tokens : list Z) (context_length : Z) :
  grid_wf tokens → 0 <= context_length →
  (∀ start, pseudo_token_ids_start (model self) = Some start →
     let unk := unk_id (tokenizer (model self)) in
     let out := post_process PromptLearning self tokens new_tokens context_length in
     length (snd out) = length new_tokens ∧
     (∀ i x, new_tokens !! i = Some x →
        snd out !! i = Some (if bool_decide (start <= x) then unk else x)) ∧
     ncols (fst out) = ncols tokens ∧
     nrows (fst out) = nrows tokens ∧
     (∀ i j x, grid_get tokens i j = Some x →
        grid_get (fst out) i j
        = Some (if bool_decide (Z.of_nat j < context_length ∧ start <= x)
                then unk else x))) ∧
  (v ≠ PromptLearning →
     post_process v self tokens new_tokens context_length = (tokens, new_tokens)).
Proof.
  intros Hwf Hc. split.
  - intros start Hstart unk out. subst out. simpl.
    unfold PromptLearningModelTextGenerationStrategy.post_process.
    rewrite Hstart. simpl. fold unk.
    split; [by rewrite length_map|].
    split.
    { intros i x Hi.
      rewrite map_is_fmap, list_lookup_fmap, Hi. simpl.
      by rewrite replace_pseudo_token_spec. }
    split; [done|].
    split; [unfold nrows; simpl; by rewrite length_map|].
    intros i j x. unfold grid_get. simpl.
    rewrite map_is_fmap, list_lookup_fmap.
    destruct (trows tokens !! i) as [r|] eqn:Hr; [simpl | done].
    intros Hj.
    rewrite (lookup_map_take_drop _ _ _ _ _ Hj).
    assert (Hlen : length r = ncols tokens).
    { unfold grid_wf in Hwf. rewrite Forall_forall in Hwf.
      apply Hwf. by eapply list_elem_of_lookup_2. }
    pose proof (lookup_lt_Some _ _ _ Hj) as Hjlt.
    rewrite slice_stop_nonneg by done.
    rewrite replace_pseudo_token_spec.
    f_equal.
    destruct (decide (Z.of_nat j < context_length)) as [Hin | Hout].
    + rewrite (bool_decide_eq_true_2 (j < _)%nat) by lia.
      destruct (decide (start <= x)).
      * rewrite !bool_decide_eq_true_2; [done | by split | done].
      * rewrite !bool_decide_eq_false_2; [done | tauto | done].
    + rewrite (bool_decide_eq_false_2 (j < _)%nat) by lia.
      rewrite bool_decide_eq_false_2; [done | tauto].
  - by destruct v.
Qed.

(** Threshold 50000 and [unk_id = 3]: the generated token 50005 becomes 3,
    the token 42 stays, and of the row [50005, 42, 50007] only the two
    context columns are rewritten. *)
Lemma post_process_spec_witness :
  let out := post_process PromptLearning Session.gpt_strategy
               (Grid 3 [[50005; 42; 50007]]) [50005; 42] 2 in
  snd out !! 0%nat = Some 3 ∧
  snd out !! 1%nat = Some 42 ∧
  grid_get (fst out) 0 0 = Some 3 ∧
  grid_get (fst out) 0 2 = Some 50007 ∧
  post_process Neva Session.gpt_strategy
    (Grid 3 [[50005; 42; 50007]]) [50005; 42] 2
  = (Grid 3 [[50005; 42; 50007]], [50005; 42]).
Proof.
  assert (Hwf : grid_wf (Grid 3 [[50005; 42; 50007]])).
  { repeat constructor. }
  destruct (post_process_spec Neva Session.gpt_strategy
              (Grid 3 [[50005; 42; 50007]]) [50005; 42] 2 Hwf ltac:(lia))
    as [Hprompt Hother].
  destruct (Hprompt 50000 eq_refl) as (_ & Hnew & _ & _ & Hctx).
  split; [|split; [|split; [|split]]].
  - exact (Hnew 0%nat 50005 eq_refl).
  - exact (Hnew 1%nat 42 eq_refl).
  - exact (Hctx 0%nat 0%nat 50005 eq_refl).
  - exact (Hctx 0%nat 2%nat 50007 eq_refl).
  - apply Hother. discriminate.
Defined.

(** ** Batch preparation *)

Lemma grid_wf_row (t : grid) (i : nat) (r : list Z) :
  grid_wf t → trows t !! i = Some r → length r = ncols t.
Proof.
  unfold grid_wf. rewrite Forall_forall. intros Hwf Hr.
  apply Hwf. by eapply list_elem_of_lookup_2.
Qed.

Lemma cols_upto_leading (t : grid) (c : Z) :
  grid_wf t → 0 <= c <= Z.of_nat (ncols t) →
  leading_columns (cols_upto t c) t c.
Proof.
  intros Hwf Hc. unfold leading_columns, cols_upto, nrows, grid_get, grid_wf.
  simpl. rewrite slice_stop_nonneg by lia.
  replace (Z.to_nat c `min` ncols t)%nat with (Z.to_nat c) by lia.
  split; [|split; [done|split; [by rewrite length_map|]]].
  - apply Forall_forall. intros r Hin.
    apply list_elem_of_In, in_map_iff in Hin as (r0 & <- & Hr0).
    apply list_elem_of_In, list_elem_of_lookup_1 in Hr0 as [i Hi].
    rewrite length_take, (grid_wf_row t i r0) by done. lia.
  - intros i j Hj. rewrite map_is_fmap, list_lookup_fmap.
    destruct (trows t !! i) as [r|]; [simpl | done].
    by rewrite lookup_take_lt.
Qed.

Lemma column_in_range (t : grid) (c : Z) :
  1 <= c <= Z.of_nat (ncols t) →
  column t (c - 1) = Ok (map (fun r => nth (Z.to_nat (c - 1)) r 0) (trows t)).
Proof.
  intros Hc. unfold column, index_resolve.
  destruct (Z.ltb_spec (c - 1) 0); [lia|].
  destruct (Z.leb_spec 0 (c - 1)); [|lia].
  destruct (Z.ltb_spec (c - 1) (Z.of_nat (ncols t))); [|lia].
  reflexivity.
Qed.

Lemma chunks_singletons (v : list Z) :
  chunks (length v) 1 v = map (fun x => [x]) v.
Proof. induction v as [|x v IH]; simpl; [done | by rewrite drop_0, IH]. Qed.

Lemma view_rows_one_per_row (v : list Z) (m : Z) :
  0 < m → length v = Z.to_nat m →
  view_rows v m = Ok (Grid 1 (map (fun x => [x]) v)).
Proof.
  intros Hm Hlen. unfold view_rows.
  destruct (Z.leb_spec m 0); [lia|].
  replace (Z.of_nat (length v)) with m by lia.
  rewrite Z_mod_same_full, Z_div_same_full by lia. simpl.
  by rewrite <- Hlen, chunks_singletons.
Qed.

Lemma single_column_spec (t : grid) (m c : Z) :
  grid_wf t → nrows t = Z.to_nat m → 1 <= c <= Z.of_nat (ncols t) →
  single_column
    (Grid 1 (map (fun x => [x]) (map (fun r => nth (Z.to_nat (c - 1)) r 0) (trows t))))
    t m (c - 1).
Proof.
  intros Hwf Hrows Hc.
  unfold single_column, grid_wf, nrows, grid_get in *. simpl.
  split; [|split; [done|split; [by rewrite !length_map|]]].
  - apply Forall_forall. intros r Hin.
    by apply list_elem_of_In, in_map_iff in Hin as (x & <- & _).
  - intros i Hi. rewrite !map_is_fmap, !list_lookup_fmap.
    destruct (trows t !! i) as [r|] eqn:Hr.
    + simpl. rewrite nth_lookup.
      pose proof (grid_wf_row t i r Hwf Hr) as Hlen.
      destruct (lookup_lt_is_Some_2 r (Z.to_nat (c - 1)) ltac:(lia)) as [x Hx].
      rewrite Hx. simpl. split; [by eexists | done].
    + apply lookup_ge_None in Hr. lia.
Qed.

(** The choice made by [select_step] under the caller's contract. *)
Lemma select_step_prefill (self : Strategy) (tokens : grid)
    (micro_batch_size context_length : Z) :
  TextGenerationStrategy.select_step self tokens micro_batch_size 0 context_length
  = Ok (true, cols_upto tokens context_length,
        cols_upto (position_ids self) context_length).
Proof. reflexivity. Qed.

Lemma select_step_decode (self : Strategy) (tokens : grid)
    (micro_batch_size step context_length : Z) :
  step ≠ 0 → 0 < micro_batch_size →
  nrows tokens = Z.to_nat micro_batch_size →
  nrows (position_ids self) = Z.to_nat micro_batch_size →
  ncols (position_ids self) = ncols tokens →
  1 <= context_length <= Z.of_nat (ncols tokens) →
  TextGenerationStrategy.select_step self tokens micro_batch_size step context_length
  = Ok (false,
        Grid 1 (map (fun x => [x])
                  (map (fun r => nth (Z.to_nat (context_length - 1)) r 0)
                     (trows tokens))),
        Grid 1 (map (fun x => [x])
                  (map (fun r => nth (Z.to_nat (context_length - 1)) r 0)
                     (trows (position_ids self))))).
Proof.
  intros Hstep Hm Hrt Hrp Hcols Hc.
  unfold TextGenerationStrategy.select_step.
  destruct (Z.eqb_spec step 0); [done|].
  rewrite !column_in_range by lia. simpl.
  rewrite !view_rows_one_per_row by (rewrite ?length_map; done).
  reflexivity.
Qed.

(** Every strategy builds its batch from the same three leading tensors and
    the same two trailing arrays; the strategies differ in what lies in
    between and in where [hidden_size] is read. *)
Lemma prepare_batch_at_step_layout (v : Variant) (self : Strategy)
    (tokens : grid) (maxlen micro_batch_size step context_length : Z)
    (compute_attention_mask : bool) (media : value) (extra : gmap string value)
    (batch : list value) (shape : list Z) :
  prepare_batch_at_step v self tokens maxlen micro_batch_size step context_length
    compute_attention_mask media extra = Ok (batch, shape) →
  ∃ flag t p am extras,
    TextGenerationStrategy.select_step self tokens micro_batch_size step
      context_length = Ok (flag, t, p) ∧
    TextGenerationStrategy.attention_mask_repeat self micro_batch_size
      compute_attention_mask = Ok am ∧
    extra_inputs v self media extra = Some extras ∧
    batch = [VGrid t; am; VGrid p] ++ extras
            ++ [VBools (py_repeat flag micro_batch_size);
                VVec (py_repeat maxlen micro_batch_size)] ∧
    shape = [Z.of_nat (ncols t); micro_batch_size; hidden_size_of v self].
Proof.
  destruct v; simpl;
    unfold GPTModelTextGenerationStrategy.prepare_batch_at_step,
      NevaModelTextGenerationStrategy.prepare_batch_at_step,
      PromptLearningModelTextGenerationStrategy.prepare_batch_at_step,
      RetroModelTextGenerationStrategy.prepare_batch_at_step;
    destruct (TextGenerationStrategy.select_step _ _ _ _ _)
      as [[[flag t] p]|]; simpl; try discriminate;
    destruct (TextGenerationStrategy.attention_mask_repeat _ _ _)
      as [am|]; simpl; try discriminate;
    try destruct (extra !! "neighbors_tokens") as [nt|]; simpl;
    try discriminate;
    intros [= <- <-]; by eexists _, _, _, _, _.
Qed.

Lemma attention_mask_repeat_returns (self : Strategy) (micro_batch_size : Z)
    (compute_attention_mask : bool) :
  0 < micro_batch_size →
  (compute_attention_mask = true → is_Some (attention_mask self)) →
  ∃ am, TextGenerationStrategy.attention_mask_repeat self micro_batch_size
          compute_attention_mask = Ok am.
Proof.
  intros Hm Hmask. unfold TextGenerationStrategy.attention_mask_repeat.
  destruct compute_attention_mask; [|by eexists].
  destruct (Hmask eq_refl) as [a Ha]. unfold concat_copies. rewrite Ha.
  destruct (Z.leb_spec micro_batch_size 0); [lia|]. by eexists.
Qed.

(** Under the caller's contract the call returns, given what [select_step]
    chose. *)
Lemma prepare_batch_at_step_returns (v : Variant) (self : Strategy)
    (tokens : grid) (maxlen micro_batch_size step context_length : Z)
    (compute_attention_mask : bool) (media : value) (extra : gmap string value)
    (flag : bool) (t p : grid) :
  caller_contract v self tokens micro_batch_size compute_attention_mask extra →
  TextGenerationStrategy.select_step self tokens micro_batch_size step
    context_length = Ok (flag, t, p) →
  ∃ am extras,
    extra_inputs v self media extra = Some extras ∧
    prepare_batch_at_step v self tokens maxlen micro_batch_size step
      context_length compute_attention_mask media extra
    = Ok ([VGrid t; am; VGrid p] ++ extras
          ++ [VBools (py_repeat flag micro_batch_size);
              VVec (py_repeat maxlen micro_batch_size)],
          [Z.of_nat (ncols t); micro_batch_size; hidden_size_of v self]).
Proof.
  intros (_ & _ & Hm & _ & _ & _ & Hmask & Hextra) Hsel.
  destruct (attention_mask_repeat_returns self micro_batch_size
              compute_attention_mask Hm Hmask) as [am Ham].
  exists am.
  destruct v; simpl;
    unfold GPTModelTextGenerationStrategy.prepare_batch_at_step,
      NevaModelTextGenerationStrategy.prepare_batch_at_step,
      PromptLearningModelTextGenerationStrategy.prepare_batch_at_step,
      RetroModelTextGenerationStrategy.prepare_batch_at_step;
    rewrite Hsel; simpl; rewrite Ham; simpl.
  - by eexists.
  - by eexists.
  - by eexists.
  - destruct (Hextra eq_refl) as [nt Hnt]. rewrite Hnt. simpl. by eexists.
Qed.

(** C1: for each of the four strategies, at [step = 0] the batch carries
    the first [context_length] columns of the tokens and of the position
    ids, and the flag array says [true] (allocate the key-value memory); at
    any [step > 0] it carries the single column [context_length - 1] of
    both, in shape [micro_batch_size, 1], and the flag array says [false].
    The flag array is the last but one entry of the batch. *)
Theorem prepare_batch_at_step_prefill_and_decode (v : Variant) (self : Strategy)
    (tokens : grid) (maxlen micro_batch_size step context_length : Z)
    (compute_attention_mask : bool) (media : value) (extra : gmap string value) :
  caller_contract v self tokens micro_batch_size compute_attention_mask extra →
  (step = 0 → 0 <= context_length <= Z.of_nat (ncols tokens) →
   ∃ t p am extras shape,
     prepare_batch_at_step v self tokens maxlen micro_batch_size step
       context_length compute_attention_mask media extra
     = Ok ([VGrid t; am; VGrid p] ++ extras
           ++ [VBools (replicate (Z.to_nat micro_batch_size) true);
               VVec (replicate (Z.to_nat micro_batch_size) maxlen)], shape) ∧
     leading_columns t tokens context_length ∧
     leading_columns p (position_ids self) context_length) ∧
  (0 < step → 1 <= context_length <= Z.of_nat (ncols tokens) →
   ∃ t p am extras shape,
     prepare_batch_at_step v self tokens maxlen micro_batch_size step
       context_length compute_attention_mask media extra
     = Ok ([VGrid t; am; VGrid p] ++ extras
           ++ [VBools (replicate (Z.to_nat micro_batch_size) false);
               VVec (replicate (Z.to_nat micro_batch_size) maxlen)], shape) ∧
     single_column t tokens micro_batch_size (context_length - 1) ∧
     single_column p (position_ids self) micro_batch_size (context_length - 1)).
Proof.
  intros Hcall.
  pose proof Hcall as (Hwt & Hwp & Hm & Hrt & Hrp & Hcols & _ & _).
  split.
  - intros -> Hc.
    destruct (prepare_batch_at_step_returns v self tokens maxlen
                micro_batch_size 0 context_length compute_attention_mask
                media extra _ _ _ Hcall
                (select_step_prefill self tokens micro_batch_size context_length))
      as (am & extras & _ & Hrun).
    eexists _, _, am, extras, _. split; [exact Hrun|].
    split; apply cols_upto_leading; try done. lia.
  - intros Hstep Hc.
    assert (Hsel := select_step_decode self tokens micro_batch_size step
                      context_length ltac:(lia) Hm Hrt Hrp Hcols Hc).
    destruct (prepare_batch_at_step_returns v self tokens maxlen
                micro_batch_size step context_length compute_attention_mask
                media extra _ _ _ Hcall Hsel)
      as (am & extras & _ & Hrun).
    eexists _, _, am, extras, _. split; [exact Hrun|].
    split; apply single_column_spec; try done. lia.
Qed.

Lemma session_contract (v : Variant) :
  caller_contract v (Session.a_strategy (Session.a_model None false false true false))
    Session.tokens 2 true {[ "neighbors_tokens" := VGrid (Grid 2 [[1; 2]]) ]}.
Proof.
  unfold caller_contract. simpl.
  split; [repeat constructor|].
  split; [repeat constructor|].
  split; [lia|].
  split; [reflexivity|].
  split; [reflexivity|].
  split; [reflexivity|].
  split; intros _; by eexists.
Defined.

(** Two sequences of three tokens, context length 2: at step 0 the batch
    holds the first two columns, at step 3 the column of index 1. *)
Lemma prepare_batch_at_step_prefill_and_decode_witness :
  (∃ t p am extras shape,
     prepare_batch_at_step Retro Session.gpt_strategy Session.tokens 10 2 0 2
       true VNone {[ "neighbors_tokens" := VGrid (Grid 2 [[1; 2]]) ]}
     = Ok ([VGrid t; am; VGrid p] ++ extras
           ++ [VBools [true; true]; VVec [10; 10]], shape) ∧
     leading_columns t Session.tokens 2 ∧
     leading_columns p (position_ids Session.gpt_strategy) 2) ∧
  (∃ t p am extras shape,
     prepare_batch_at_step Retro Session.gpt_strategy Session.tokens 10 2 3 2
       true VNone {[ "neighbors_tokens" := VGrid (Grid 2 [[1; 2]]) ]}
     = Ok ([VGrid t; am; VGrid p] ++ extras
           ++ [VBools [false; false]; VVec [10; 10]], shape) ∧
     single_column t Session.tokens 2 (2 - 1) ∧
     single_column p (position_ids Session.gpt_strategy) 2 (2 - 1)).
Proof.
  split.
  - apply (prepare_batch_at_step_prefill_and_decode Retro Session.gpt_strategy
             Session.tokens 10 2 0 2 true VNone _ (session_contract Retro));
      [reflexivity | unfold Session.tokens; simpl; lia].
  - apply (prepare_batch_at_step_prefill_and_decode Retro Session.gpt_strategy
             Session.tokens 10 2 3 2 true VNone _ (session_contract Retro));
      [lia | unfold Session.tokens; simpl; lia].
Defined.




(** ** Resolving one end string *)

Lemma py_slice_drop_last {A} (l : list A) :
  py_slice l 0 (-1) = take (length l - 1) l.
Proof.
  unfold py_slice.
  replace (slice_start (length l) 0) with 0%nat
    by (unfold slice_start; simpl; lia).
  replace (slice_stop (length l) (-1)) with (length l - 1)%nat
    by (unfold slice_stop; simpl; lia).
  by rewrite drop_0, Nat.sub_0_r.
Qed.

(** The test of the heuristic holds exactly when the second tokenization is
    the first one followed by one more token. *)
Lemma one_extra_token_spec (ids_ref ids : list Z) :
  TextGenerationStrategy.one_extra_token ids_ref ids = true ↔
  ∃ t, ids = ids_ref ++ [t].
Proof.
  unfold TextGenerationStrategy.one_extra_token.
  rewrite andb_true_iff, !bool_decide_eq_true, py_slice_drop_last.
  split.
  - intros [Hlen Htake].
    destruct (drop (length ids - 1) ids) as [|t [|t' k]] eqn:Hdrop.
    + apply (f_equal length) in Hdrop. rewrite length_drop in Hdrop.
      simpl in Hdrop. lia.
    + exists t. by rewrite <- Htake, <- Hdrop, take_drop.
    + apply (f_equal length) in Hdrop. rewrite length_drop in Hdrop.
      simpl in Hdrop. lia.
  - intros [t ->]. rewrite length_app. simpl. split; [done|].
    replace (length ids_ref + 1 - 1)%nat with (length ids_ref) by lia.
    by rewrite take_app_length.
Qed.

(** The same condition, as the specification words it: one token longer,
    with the first tokenization as a prefix. *)
Lemma one_longer_with_prefix (ids_ref ids : list Z) :
  length ids = (length ids_ref + 1)%nat ∧ ids_ref `prefix_of` ids ↔
  ∃ t, ids = ids_ref ++ [t].
Proof.
  split.
  - intros [Hlen [k ->]]. rewrite length_app in Hlen.
    destruct k as [|t [|t' k]]; simpl in Hlen; try lia. by exists t.
  - intros [t ->]. rewrite length_app. simpl. split; [done|].
    by exists [t].
Qed.

(** One iteration on an end string that the cache does not know: the
    tokenizer is asked for ["<extra_id_1>"] and for ["<extra_id_1>"]
    followed by the end string.  When the second answer is one token longer
    than the first and starts with it, its last token joins [end_tokens]
    and is recorded in the cache, without a warning; in every other case a
    warning is issued and the end string is recorded as one to check. *)
Lemma resolve_end_string_uncached (tk : Tokenizer) (end_string : string)
    (st : TextGenerationStrategy.resolution) :
  cache_end_string_to_token (TextGenerationStrategy.res_cache st) !! end_string = None →
  end_string ∉ cache_end_strings_to_check (TextGenerationStrategy.res_cache st) →
  let ids_ref := text_to_ids tk "<extra_id_1>" in
  let ids_with_end_string := text_to_ids tk ("<extra_id_1>" +:+ end_string) in
  let calls := [TextToIds "<extra_id_1>"; TextToIds ("<extra_id_1>" +:+ end_string)] in
  let out := TextGenerationStrategy.resolve_end_string tk end_string st in
  let cache := TextGenerationStrategy.res_cache st in
  let cache' := TextGenerationStrategy.res_cache (snd out) in
  cache_tokenizer cache' = cache_tokenizer cache ∧
  (length ids_with_end_string = (length ids_ref + 1)%nat ∧
   ids_ref `prefix_of` ids_with_end_string →
   ∃ t, last ids_with_end_string = Some t ∧
        fst out = calls ∧
        TextGenerationStrategy.end_tokens (snd out)
        = TextGenerationStrategy.end_tokens st ∪ {[t]} ∧
        cache_end_string_to_token cache'
        = <[end_string := t]> (cache_end_string_to_token cache) ∧
        cache_end_strings_to_check cache' = cache_end_strings_to_check cache ∧
        TextGenerationStrategy.end_strings_to_check (snd out)
        = TextGenerationStrategy.end_strings_to_check st) ∧
  (¬ (length ids_with_end_string = (length ids_ref + 1)%nat ∧
      ids_ref `prefix_of` ids_with_end_string) →
   fst out = calls
             ++ [Warn (TextGenerationStrategy.no_special_token_warning end_string)] ∧
   TextGenerationStrategy.end_tokens (snd out) = TextGenerationStrategy.end_tokens st ∧
   cache_end_string_to_token cache' = cache_end_string_to_token cache ∧
   cache_end_strings_to_check cache'
   = cache_end_strings_to_check cache ∪ {[end_string]} ∧
   TextGenerationStrategy.end_strings_to_check (snd out)
   = TextGenerationStrategy.end_strings_to_check st ++ [end_string]).
Proof.
  intros Hmap Hcheck ids_ref ids_with_end_string calls out cache cache'.
  subst out cache cache'.
  unfold TextGenerationStrategy.resolve_end_string.
  rewrite Hmap, bool_decide_eq_false_2 by done.
  fold ids_ref ids_with_end_string.
  destruct (TextGenerationStrategy.one_extra_token ids_ref ids_with_end_string)
    eqn:Htest; simpl.
  - apply one_extra_token_spec in Htest as [t Ht].
    split; [done|split].
    + intros _. exists t. rewrite Ht, last_snoc, List.last_last. done.
    + intros Hno. exfalso. apply Hno. apply one_longer_with_prefix. by exists t.
  - split; [done|split].
    + intros Hyes%one_longer_with_prefix.
      apply one_extra_token_spec in Hyes. congruence.
    + done.
Qed.

(** ** The end-of-generation cache *)

Section Resolution.

Variable tk : Tokenizer.

Abbreviation resolution := TextGenerationStrategy.resolution.
Abbreviation res_cache := TextGenerationStrategy.res_cache.
Abbreviation resolve_end_string := (TextGenerationStrategy.resolve_end_string tk).
Abbreviation resolve_end_strings := (TextGenerationStrategy.resolve_end_strings tk).

(** A resolved end string costs no call and leaves the cache alone. *)
Lemma resolve_end_string_known (s : string) (st : resolution) :
  resolved (res_cache st) s →
  fst (resolve_end_string s st) = [] ∧
  res_cache (snd (resolve_end_string s st)) = res_cache st.
Proof.
  intros Hres. unfold TextGenerationStrategy.resolve_end_string.
  destruct (cache_end_string_to_token (res_cache st) !! s) as [t|] eqn:Hmap;
    [done|].
  destruct Hres as [[t Ht] | Hin]; [congruence|].
  by rewrite bool_decide_eq_true_2.
Qed.

Lemma resolve_end_strings_known (strs : list string) (st : resolution) :
  Forall (resolved (res_cache st)) strs →
  fst (resolve_end_strings strs st) = [] ∧
  res_cache (snd (resolve_end_strings strs st)) = res_cache st.
Proof.
  revert st. induction strs as [|s strs IH]; intros st Hall; simpl; [done|].
  inversion Hall as [|? ? Hs Hrest]; subst.
  destruct (resolve_end_string_known s st Hs) as [Htr Hcache].
  destruct (resolve_end_string s st) as [tr1 st1]. simpl in *. subst tr1.
  rewrite <- Hcache in Hrest.
  destruct (IH st1 Hrest) as [Htr2 Hcache2].
  destruct (resolve_end_strings strs st1) as [tr2 st2]. simpl in *.
  by rewrite Htr2, Hcache2.
Qed.

(** After its iteration an end string is resolved, nothing resolved before
    is lost, and the cache still names the same tokenizer. *)
Lemma resolve_end_string_records (s : string) (st : resolution) :
  resolved (res_cache (snd (resolve_end_string s st))) s ∧
  (∀ s', resolved (res_cache st) s' →
         resolved (res_cache (snd (resolve_end_string s st))) s') ∧
  cache_tokenizer (res_cache (snd (resolve_end_string s st)))
  = cache_tokenizer (res_cache st).
Proof.
  unfold TextGenerationStrategy.resolve_end_string, resolved.
  destruct (cache_end_string_to_token (res_cache st) !! s) as [t|] eqn:Hmap.
  { simpl. rewrite Hmap. split; [left; by eexists | done]. }
  case_bool_decide as Hin; simpl.
  { split; [by right | done]. }
  destruct (TextGenerationStrategy.one_extra_token _ _); simpl.
  - split; [left; rewrite lookup_insert_eq; by eexists|].
    split; [|done].
    intros s' [Hs' | Hs']; [left | by right].
    rewrite lookup_insert. by case_decide.
  - split; [right; set_solver|].
    split; [|done].
    intros s' [Hs' | Hs']; [by left | right; set_solver].
Qed.

Lemma resolve_end_strings_records (strs : list string) (st : resolution) :
  Forall (resolved (res_cache (snd (resolve_end_strings strs st)))) strs ∧
  (∀ s', resolved (res_cache st) s' →
         resolved (res_cache (snd (resolve_end_strings strs st))) s') ∧
  cache_tokenizer (res_cache (snd (resolve_end_strings strs st)))
  = cache_tokenizer (res_cache st).
Proof.
  revert st. induction strs as [|s strs IH]; intros st; simpl; [done|].
  destruct (resolve_end_string_records s st) as (Hs & Hmono & Htk).
  destruct (resolve_end_string s st) as [tr1 st1]. simpl in *.
  destruct (IH st1) as (Hall & Hmono2 & Htk2).
  destruct (resolve_end_strings strs st1) as [tr2 st2]. simpl in *.
  split; [constructor; auto|].
  split; [auto | congruence].
Qed.

End Resolution.

Lemma set_same_cache (self : Strategy) (c : Cache) :
  _end_of_generation_cache self = Some c →
  set_end_of_generation_cache self (Some c) = self.
Proof. destruct self. simpl. by intros ->. Qed.

Lemma current_cache_kept (self : Strategy) (eod_id : Z) (c : Cache) :
  _end_of_generation_cache self = Some c →
  tok_ident (cache_tokenizer c) = tok_ident (tokenizer (model self)) →
  TextGenerationStrategy.current_cache self eod_id = c.
Proof.
  intros Hc Hid. unfold TextGenerationStrategy.current_cache. rewrite Hc.
  simpl. by rewrite Hid, Nat.eqb_refl.
Qed.

Lemma current_cache_rebuilt (self : Strategy) (eod_id : Z) :
  _end_of_generation_cache self = None ∨
  (∃ c, _end_of_generation_cache self = Some c ∧
        tok_ident (cache_tokenizer c) ≠ tok_ident (tokenizer (model self))) →
  TextGenerationStrategy.current_cache self eod_id
  = TextGenerationStrategy.fresh_cache (tokenizer (model self)) eod_id.
Proof.
  unfold TextGenerationStrategy.current_cache.
  intros [-> | (c & -> & Hne)]; [done|]. simpl.
  apply Nat.eqb_neq in Hne. by rewrite Hne.
Qed.

Lemma current_cache_tokenizer (self : Strategy) (eod_id : Z) :
  tok_ident (cache_tokenizer (TextGenerationStrategy.current_cache self eod_id))
  = tok_ident (tokenizer (model self)).
Proof.
  unfold TextGenerationStrategy.current_cache.
  destruct (_end_of_generation_cache self) as [c|]; [|done]. simpl.
  destruct (Nat.eqb_spec (tok_ident (cache_tokenizer c))
              (tok_ident (tokenizer (model self)))); done.
Qed.

(** What a call leaves behind: a cache for the active tokenizer in which
    every end string of the call is resolved. *)
Lemma get_end_of_generation_leaves_cache (self : Strategy) (eod_id : Z)
    (end_strings : list string) :
  let self' :=
    (TextGenerationStrategy._get_end_of_generation_tokens_and_strings
       self eod_id end_strings).1.1 in
  model self' = model self ∧
  ∃ c, _end_of_generation_cache self' = Some c ∧
       tok_ident (cache_tokenizer c) = tok_ident (tokenizer (model self)) ∧
       Forall (resolved c) end_strings.
Proof.
  unfold TextGenerationStrategy._get_end_of_generation_tokens_and_strings.
  set (st0 := TextGenerationStrategy.Build_resolution _ _ _).
  destruct (resolve_end_strings_records (tokenizer (model self)) end_strings st0)
    as (Hall & _ & Htk).
  destruct (TextGenerationStrategy.resolve_end_strings _ _ st0) as [tr st].
  simpl in *. split; [done|].
  exists (TextGenerationStrategy.res_cache st).
  split; [done|]. split; [|done].
  rewrite Htk. apply current_cache_tokenizer.
Qed.

(** ** The end-of-generation test: the general path *)

Lemma list_ascii_of_string_app (a b : string) :
  list_ascii_of_string (a +:+ b) = list_ascii_of_string a ++ list_ascii_of_string b.
Proof. induction a as [|x a IH]; simpl; [done | by rewrite IH]. Qed.

(** [endswith] holds exactly when the text is some text followed by the
    suffix. *)
Lemma endswith_spec (text s : string) :
  endswith text s = true ↔ ∃ pre, text = pre +:+ s.
Proof.
  unfold endswith. rewrite bool_decide_eq_true. split.
  - intros [k Hk]. exists (string_of_list_ascii k).
    rewrite <- (string_of_list_ascii_of_string text).
    rewrite <- (string_of_list_ascii_of_string (_ +:+ s)).
    f_equal.
    by rewrite list_ascii_of_string_app, list_ascii_of_string_of_list_ascii.
  - intros [pre ->]. exists (list_ascii_of_string pre).
    apply list_ascii_of_string_app.
Qed.

Lemma only_end_of_document_false (end_strings : list string) :
  end_strings ≠ [] → end_strings ≠ [END_OF_SEQ] →
  TextGenerationStrategy.only_end_of_document end_strings = false.
Proof.
  intros Hne Hdef. unfold TextGenerationStrategy.only_end_of_document.
  apply orb_false_iff. split.
  - apply andb_false_iff.
    destruct end_strings as [|s [|s' rest]]; [done | right | left].
    + apply bool_decide_eq_false_2. simpl. congruence.
    + by apply bool_decide_eq_false_2.
  - by apply bool_decide_eq_false_2.
Qed.

(** The loop only adds to [end_tokens]. *)
Lemma resolve_end_strings_keeps_tokens (tk : Tokenizer) (strs : list string)
    (st : TextGenerationStrategy.resolution) (t : Z) :
  t ∈ TextGenerationStrategy.end_tokens st →
  t ∈ TextGenerationStrategy.end_tokens
        (snd (TextGenerationStrategy.resolve_end_strings tk strs st)).
Proof.
  revert st. induction strs as [|s strs IH]; intros st Ht; simpl; [done|].
  assert (Hstep : t ∈ TextGenerationStrategy.end_tokens
                        (snd (TextGenerationStrategy.resolve_end_string tk s st))).
  { unfold TextGenerationStrategy.resolve_end_string.
    destruct (_ !! s); simpl; [set_solver|].
    case_bool_decide; simpl; [done|].
    destruct (TextGenerationStrategy.one_extra_token _ _); simpl; set_solver. }
  destruct (TextGenerationStrategy.resolve_end_string tk s st) as [tr1 st1].
  specialize (IH st1 Hstep).
  by destruct (TextGenerationStrategy.resolve_end_strings tk strs st1).
Qed.

Lemma get_end_of_generation_has_eod (self : Strategy) (eod_id : Z)
    (end_strings : list string) :
  eod_id ∈ (TextGenerationStrategy._get_end_of_generation_tokens_and_strings
              self eod_id end_strings).2.1.
Proof.
  unfold TextGenerationStrategy._get_end_of_generation_tokens_and_strings.
  set (st0 := TextGenerationStrategy.Build_resolution _ _ _).
  pose proof (resolve_end_strings_keeps_tokens (tokenizer (model self))
                end_strings st0 eod_id) as H.
  destruct (TextGenerationStrategy.resolve_end_strings _ _ st0) as [tr st].
  simpl in *. apply H. set_solver.
Qed.

(** The loop over the rows: it runs to its end when [is_end] has an entry
    for each row, decodes each row once, and ors into the entry of each row
    whether its text ends with one of the strings. *)
Lemma suffix_checks_spec (tk : Tokenizer) (strs : list string)
    (rows : list (list Z)) (idx : nat) (is_end : list bool) :
  (idx + length rows ≤ length is_end)%nat →
  ∃ out,
    TextGenerationStrategy.suffix_checks tk strs rows idx is_end
    = (IdsToText <$> rows, Ok out) ∧
    length out = length is_end ∧
    ∀ i b, is_end !! i = Some b →
      out !! i
      = Some (match rows !! (i - idx)%nat with
              | Some token_seq =>
                  if decide (idx ≤ i)%nat
                  then b || existsb (endswith (ids_to_text tk token_seq)) strs
                  else b
              | None => b
              end).
Proof.
  revert idx is_end. induction rows as [|row rows IH]; intros idx is_end Hlen.
  - exists is_end. simpl. split; [done|]. split; [done|].
    by intros i b Hb.
  - simpl in Hlen.
    destruct (lookup_lt_is_Some_2 is_end idx ltac:(lia)) as [b0 Hb0].
    simpl. rewrite Hb0.
    set (hit := existsb (endswith (ids_to_text tk row)) strs).
    destruct (IH (S idx) (<[idx := b0 || hit]> is_end)) as (out & Hrun & Hout & Hspec).
    { rewrite length_insert. lia. }
    rewrite Hrun. exists out. split; [done|].
    rewrite length_insert in Hout. split; [done|].
    intros i b Hb.
    destruct (decide (i = idx)) as [-> | Hne].
    + rewrite (Hspec idx (b0 || hit)).
      2:{ apply list_lookup_insert_eq. by eapply lookup_lt_Some. }
      replace (idx - S idx)%nat with 0%nat by lia.
      replace (idx - idx)%nat with 0%nat by lia. simpl.
      rewrite decide_True by lia.
      assert (b = b0) as -> by congruence.
      destruct (rows !! 0%nat); [|done].
      by rewrite decide_False by lia.
    + rewrite (Hspec i b) by (by rewrite list_lookup_insert_ne).
      destruct (decide (idx ≤ i)%nat) as [Hle | Hgt].
      * replace (i - idx)%nat with (S (i - S idx)) by lia. simpl.
        destruct (rows !! (i - S idx)%nat); [|done].
        by rewrite decide_True by lia.
      * replace (i - S idx)%nat with 0%nat by lia.
        replace (i - idx)%nat with 0%nat by lia. simpl.
        destruct (rows !! 0%nat); [|done].
        by rewrite decide_False by lia.
Qed.

(** C3: the set of end tokens resolved for a call always holds [eod_id].
    When custom end strings are given, and [tokens] has one row per entry
    of [prev], [end_of_generation_condition] returns a boolean per
    sequence, which is true exactly when the previous token of the sequence
    is one of the end tokens or the decoded text of its row ends with one
    of the end strings left to check. *)
Theorem end_of_generation_condition_general (self : Strategy) (tokens : grid)
    (prev : list Z) (eod_id : Z) (end_strings : list string) :
  let tk := tokenizer (model self) in
  let resolution :=
    TextGenerationStrategy._get_end_of_generation_tokens_and_strings
      self eod_id end_strings in
  let end_tokens := resolution.2.1 in
  let end_strings_to_check := resolution.2.2 in
  eod_id ∈ end_tokens ∧
  (end_strings ≠ [] → end_strings ≠ [END_OF_SEQ] →
   nrows tokens = length prev →
   ∃ calls is_end,
     TextGenerationStrategy.end_of_generation_condition
       self tokens prev eod_id end_strings
     = (resolution.1.1, resolution.1.2 ++ calls, Ok is_end) ∧
     length is_end = length prev ∧
     ∀ i p token_seq,
       prev !! i = Some p → trows tokens !! i = Some token_seq →
       ∃ b, is_end !! i = Some b ∧
            (b = true ↔
             p ∈ end_tokens ∨
             ∃ s, s ∈ end_strings_to_check ∧
                  ∃ pre, ids_to_text tk token_seq = pre +:+ s)).
Proof.
  intros tk resolution end_tokens end_strings_to_check.
  assert (Heod : eod_id ∈ end_tokens)
    by apply get_end_of_generation_has_eod.
  split; [done|].
  intros Hne Hdef Hrows.
  unfold TextGenerationStrategy.end_of_generation_condition.
  rewrite only_end_of_document_false by done.
  subst end_tokens end_strings_to_check resolution.
  destruct (TextGenerationStrategy._get_end_of_generation_tokens_and_strings
              self eod_id end_strings) as [[self' tr] [et sc]].
  simpl in *.
  rewrite bool_decide_eq_false_2 by set_solver.
  set (is_end0 := map (fun p => bool_decide (p ∈ et)) prev).
  assert (Hlook : ∀ i p, prev !! i = Some p →
                         is_end0 !! i = Some (bool_decide (p ∈ et))).
  { intros i p Hp. subst is_end0.
    by rewrite map_is_fmap, list_lookup_fmap, Hp. }
  destruct sc as [|s0 sc].
  - exists [], is_end0. rewrite app_nil_r.
    split; [done|]. split; [by apply length_map|].
    intros i p token_seq Hp _. exists (bool_decide (p ∈ et)).
    split; [by apply Hlook|].
    rewrite bool_decide_eq_true. split; [by left|].
    intros [Hin | (s & Hs & _)]; [done|]. by apply elem_of_nil in Hs.
  - destruct (suffix_checks_spec tk (s0 :: sc) (trows tokens) 0 is_end0)
      as (out & Hrun & Hlen & Hspec).
    { subst is_end0. rewrite length_map. unfold nrows in Hrows. lia. }
    fold tk. rewrite Hrun.
    exists (IdsToText <$> trows tokens), out.
    split; [done|].
    split; [rewrite Hlen; by apply length_map|].
    intros i p token_seq Hp Hrow.
    exists (bool_decide (p ∈ et)
            || existsb (endswith (ids_to_text tk token_seq)) (s0 :: sc)).
    split.
    + rewrite (Hspec i _ (Hlook i p Hp)), Nat.sub_0_r, Hrow.
      by rewrite decide_True by lia.
    + rewrite orb_true_iff, bool_decide_eq_true, existsb_exists.
      split; (intros [Hin | (s & Hs & Hend)]; [by left | right; exists s]).
      * split; [by apply list_elem_of_In | by apply endswith_spec].
      * split; [by apply list_elem_of_In | by apply endswith_spec].
Qed.

(** Two sequences, end strings ["Done"] and ["STOP"]: the first row decodes
    to a text ending with ["STOP"] and stops; the second has neither an end
    token as previous token nor such a text and goes on. *)
Lemma end_of_generation_condition_general_witness :
  ∃ calls is_end,
    TextGenerationStrategy.end_of_generation_condition
      Session.gpt_strategy Session.tokens [6; 8] 9 ["Done"; "STOP"]
    = ((TextGenerationStrategy._get_end_of_generation_tokens_and_strings
          Session.gpt_strategy 9 ["Done"; "STOP"]).1.1,
       (TextGenerationStrategy._get_end_of_generation_tokens_and_strings
          Session.gpt_strategy 9 ["Done"; "STOP"]).1.2 ++ calls,
       Ok is_end) ∧
    is_end !! 0%nat = Some true ∧
    is_end !! 1%nat = Some false.
Proof.
  destruct (end_of_generation_condition_general Session.gpt_strategy
              Session.tokens [6; 8] 9 ["Done"; "STOP"]) as [_ Hgeneral].
  destruct Hgeneral as (calls & is_end & Hrun & _ & Hspec);
    [discriminate | discriminate | reflexivity |].
  exists calls, is_end. split; [exact Hrun|].
  assert (Hres :
    (TextGenerationStrategy._get_end_of_generation_tokens_and_strings
       Session.gpt_strategy 9 ["Done"; "STOP"]).2
    = ({[ 9 ]} ∪ {[ 7 ]}, ["STOP"])) by reflexivity.
  rewrite Hres in Hspec. simpl in Hspec.
  split.
  - destruct (Hspec 0%nat 6 [5; 6; 9] eq_refl eq_refl) as (b & Hb & Hiff).
    rewrite Hb. f_equal. apply Hiff. right.
    exists "STOP". split; [constructor|]. by exists "please ".
  - destruct (Hspec 1%nat 8 [7; 8; 9] eq_refl eq_refl) as (b & Hb & Hiff).
    rewrite Hb. f_equal. destruct b; [|done].
    destruct Hiff as [Hstop _].
    destruct (Hstop eq_refl) as [Hin | (s & Hs & pre & Hpre)].
    + apply elem_of_union in Hin as [H9 | H7].
      * apply elem_of_singleton in H9. discriminate H9.
      * apply elem_of_singleton in H7. discriminate H7.
    + apply list_elem_of_singleton in Hs as ->.
      apply (f_equal (fun t => endswith t "STOP")) in Hpre.
      rewrite (proj2 (endswith_spec (pre +:+ "STOP") "STOP")) in Hpre
        by by exists pre.
      discriminate Hpre.
Defined.

(** * Further properties of the code *)

(** ** Batch preparation: bounds and errors *)

Lemma index_resolve_negative (len : nat) (i : Z) :
  - Z.of_nat len <= i < 0 → index_resolve len i = Ok (Z.to_nat (Z.of_nat len + i)).
Proof.
  intros Hi. unfold index_resolve.
  destruct (Z.ltb_spec i 0); [|lia].
  destruct (Z.leb_spec 0 (i + Z.of_nat len)); [|lia].
  destruct (Z.ltb_spec (i + Z.of_nat len) (Z.of_nat len)); [|lia].
  simpl. do 2 f_equal. lia.
Qed.

Lemma index_resolve_outside (len : nat) (i : Z) :
  Z.of_nat len <= i ∨ i < - Z.of_nat len → index_resolve len i = Err IndexError.
Proof.
  intros Hi. unfold index_resolve.
  destruct (Z.ltb_spec i 0).
  - destruct (Z.leb_spec 0 (i + Z.of_nat len)); [lia | done].
  - destruct (Z.leb_spec 0 i); [|done].
    destruct (Z.ltb_spec i (Z.of_nat len)); [lia | done].
Qed.

Lemma select_step_decode_at (self : Strategy) (tokens : grid)
    (micro_batch_size step context_length : Z) (j : nat) :
  step ≠ 0 → 0 < micro_batch_size →
  nrows tokens = Z.to_nat micro_batch_size →
  nrows (position_ids self) = Z.to_nat micro_batch_size →
  ncols (position_ids self) = ncols tokens →
  index_resolve (ncols tokens) (context_length - 1) = Ok j →
  TextGenerationStrategy.select_step self tokens micro_batch_size step context_length
  = Ok (false,
        Grid 1 (map (fun x => [x]) (map (fun r => nth j r 0) (trows tokens))),
        Grid 1 (map (fun x => [x])
                  (map (fun r => nth j r 0) (trows (position_ids self))))).
Proof.
  intros Hstep Hm Hrt Hrp Hcols Hj.
  unfold TextGenerationStrategy.select_step, column.
  destruct (Z.eqb_spec step 0); [done|].
  rewrite Hcols, Hj. simpl.
  rewrite !view_rows_one_per_row by (rewrite ?length_map; done).
  reflexivity.
Qed.

(** X1: a decode step with [context_length] from [1 - width] to [0] does
    not fail: the index [context_length - 1] is negative and counts from
    the end, so the batch carries column [width + context_length - 1] of
    the tokens and of the position ids (the last column for
    [context_length = 0]). *)
Theorem prepare_batch_at_step_negative_index (v : Variant) (self : Strategy)
    (tokens : grid) (maxlen micro_batch_size step context_length : Z)
    (compute_attention_mask : bool) (media : value) (extra : gmap string value) :
  caller_contract v self tokens micro_batch_size compute_attention_mask extra →
  step ≠ 0 →
  - Z.of_nat (ncols tokens) < context_length <= 0 →
  ∃ t p am extras shape,
    prepare_batch_at_step v self tokens maxlen micro_batch_size step
      context_length compute_attention_mask media extra
    = Ok ([VGrid t; am; VGrid p] ++ extras
          ++ [VBools (replicate (Z.to_nat micro_batch_size) false);
              VVec (replicate (Z.to_nat micro_batch_size) maxlen)], shape) ∧
    single_column t tokens micro_batch_size
      (Z.of_nat (ncols tokens) + context_length - 1) ∧
    single_column p (position_ids self) micro_batch_size
      (Z.of_nat (ncols tokens) + context_length - 1).
Proof.
  intros Hcall Hstep Hc.
  pose proof Hcall as (Hwt & Hwp & Hm & Hrt & Hrp & Hcols & _ & _).
  assert (Hj := index_resolve_negative (ncols tokens) (context_length - 1)
                  ltac:(lia)).
  assert (Hsel := select_step_decode_at self tokens micro_batch_size step
                    context_length _ Hstep Hm Hrt Hrp Hcols Hj).
  destruct (prepare_batch_at_step_returns v self tokens maxlen
              micro_batch_size step context_length compute_attention_mask
              media extra _ _ _ Hcall Hsel)
    as (am & extras & _ & Hrun).
  eexists _, _, am, extras, _. split; [exact Hrun|].
  replace (Z.of_nat (ncols tokens) + (context_length - 1))
    with (Z.of_nat (ncols tokens) + context_length - 1) by lia.
  split.
  - apply (single_column_spec tokens micro_batch_size
             (Z.of_nat (ncols tokens) + context_length)); [done | done | lia].
  - rewrite <- Hcols.
    apply (single_column_spec (position_ids self) micro_batch_size
             (Z.of_nat (ncols (position_ids self)) + context_length));
      [done | done | lia].
Qed.

Lemma prepare_batch_at_step_negative_index_witness :
  ∃ t p am extras shape,
    prepare_batch_at_step Retro Session.gpt_strategy Session.tokens 10 2 1 0
      true VNone {[ "neighbors_tokens" := VGrid (Grid 2 [[1; 2]]) ]}
    = Ok ([VGrid t; am; VGrid p] ++ extras
          ++ [VBools [false; false]; VVec [10; 10]], shape) ∧
    single_column t Session.tokens 2 (3 + 0 - 1) ∧
    single_column p (position_ids Session.gpt_strategy) 2 (3 + 0 - 1).
Proof.
  apply (prepare_batch_at_step_negative_index Retro Session.gpt_strategy
           Session.tokens 10 2 1 0 true VNone _ (session_contract Retro));
    [discriminate | unfold Session.tokens; simpl; lia].
Defined.

(** X2: a decode step whose [context_length] lies beyond the width of the
    token grid, or at or below minus the width, raises [IndexError], for
    every strategy and whatever the other arguments are. *)
Theorem prepare_batch_at_step_index_error (v : Variant) (self : Strategy)
    (tokens : grid) (maxlen micro_batch_size step context_length : Z)
    (compute_attention_mask : bool) (media : value) (extra : gmap string value) :
  step ≠ 0 →
  Z.of_nat (ncols tokens) < context_length ∨
  context_length <= - Z.of_nat (ncols tokens) →
  prepare_batch_at_step v self tokens maxlen micro_batch_size step
    context_length compute_attention_mask media extra = Err IndexError.
Proof.
  intros Hstep Hc.
  assert (Hsel : TextGenerationStrategy.select_step self tokens
                   micro_batch_size step context_length = Err IndexError).
  { unfold TextGenerationStrategy.select_step, column.
    destruct (Z.eqb_spec step 0); [done|].
    by rewrite (index_resolve_outside (ncols tokens)) by lia. }
  destruct v; simpl;
    unfold GPTModelTextGenerationStrategy.prepare_batch_at_step,
      NevaModelTextGenerationStrategy.prepare_batch_at_step,
      PromptLearningModelTextGenerationStrategy.prepare_batch_at_step,
      RetroModelTextGenerationStrategy.prepare_batch_at_step;
    by rewrite Hsel.
Qed.

Lemma prepare_batch_at_step_index_error_witness :
  prepare_batch_at_step GPT Session.gpt_strategy Session.tokens 10 2 1 4
    true VNone ∅ = Err IndexError.
Proof.
  apply prepare_batch_at_step_index_error;
    [discriminate | left; unfold Session.tokens; simpl; lia].
Defined.

(** X3: a decode step raises [RuntimeError] when [micro_batch_size] is not
    positive or does not divide the number of rows of the token grid: the
    column cannot be viewed as [micro_batch_size] rows. *)
Theorem prepare_batch_at_step_view_error (v : Variant) (self : Strategy)
    (tokens : grid) (maxlen micro_batch_size step context_length : Z)
    (compute_attention_mask : bool) (media : value) (extra : gmap string value) :
  step ≠ 0 →
  1 <= context_length <= Z.of_nat (ncols tokens) →
  micro_batch_size <= 0 ∨ Z.of_nat (nrows tokens) mod micro_batch_size ≠ 0 →
  prepare_batch_at_step v self tokens maxlen micro_batch_size step
    context_length compute_attention_mask media extra = Err RuntimeError.
Proof.
  intros Hstep Hc Hm.
  assert (Hsel : TextGenerationStrategy.select_step self tokens
                   micro_batch_size step context_length = Err RuntimeError).
  { unfold TextGenerationStrategy.select_step.
    destruct (Z.eqb_spec step 0); [done|].
    rewrite (column_in_range tokens) by done. simpl.
    unfold view_rows. rewrite length_map. fold (nrows tokens).
    destruct (Z.leb_spec micro_batch_size 0); [done|].
    destruct (Z.eqb_spec (Z.of_nat (nrows tokens) mod micro_batch_size) 0);
      [lia | done]. }
  destruct v; simpl;
    unfold GPTModelTextGenerationStrategy.prepare_batch_at_step,
      NevaModelTextGenerationStrategy.prepare_batch_at_step,
      PromptLearningModelTextGenerationStrategy.prepare_batch_at_step,
      RetroModelTextGenerationStrategy.prepare_batch_at_step;
    by rewrite Hsel.
Qed.

Lemma prepare_batch_at_step_view_error_witness :
  prepare_batch_at_step GPT Session.gpt_strategy
    (Grid 2 [[5; 6]; [7; 8]; [1; 2]]) 10 2 1 2 false VNone ∅
  = Err RuntimeError.
Proof.
  apply prepare_batch_at_step_view_error;
    [discriminate | simpl; lia | right; discriminate].
Defined.

(** The converse of [prepare_batch_at_step_layout]: the three parts
    determine the batch. *)
Lemma prepare_batch_at_step_from_parts (v : Variant) (self : Strategy)
    (tokens : grid) (maxlen micro_batch_size step context_length : Z)
    (compute_attention_mask : bool) (media : value) (extra : gmap string value)
    (flag : bool) (t p : grid) (am : value) (extras : list value) :
  TextGenerationStrategy.select_step self tokens micro_batch_size step
    context_length = Ok (flag, t, p) →
  TextGenerationStrategy.attention_mask_repeat self micro_batch_size
    compute_attention_mask = Ok am →
  extra_inputs v self media extra = Some extras →
  prepare_batch_at_step v self tokens maxlen micro_batch_size step
    context_length compute_attention_mask media extra
  = Ok ([VGrid t; am; VGrid p] ++ extras
        ++ [VBools (py_repeat flag micro_batch_size);
            VVec (py_repeat maxlen micro_batch_size)],
        [Z.of_nat (ncols t); micro_batch_size; hidden_size_of v self]).
Proof.
  intros Hsel Ham Hex.
  destruct v; simpl in *;
    unfold GPTModelTextGenerationStrategy.prepare_batch_at_step,
      NevaModelTextGenerationStrategy.prepare_batch_at_step,
      PromptLearningModelTextGenerationStrategy.prepare_batch_at_step,
      RetroModelTextGenerationStrategy.prepare_batch_at_step;
    rewrite Hsel; simpl; rewrite Ham; simpl.
  - by injection Hex as <-.
  - by injection Hex as <-.
  - by injection Hex as <-.
  - destruct (extra !! "neighbors_tokens"); [|done]. by injection Hex as <-.
Qed.

Lemma prepare_batch_at_step_fails_with (v : Variant) (self : Strategy)
    (tokens : grid) (maxlen micro_batch_size step context_length : Z)
    (compute_attention_mask : bool) (media : value) (extra : gmap string value)
    (x : bool * grid * grid) (e : py_error) :
  TextGenerationStrategy.select_step self tokens micro_batch_size step
    context_length = Ok x →
  TextGenerationStrategy.attention_mask_repeat self micro_batch_size
    compute_attention_mask = Err e →
  prepare_batch_at_step v self tokens maxlen micro_batch_size step
    context_length compute_attention_mask media extra = Err e.
Proof.
  intros Hsel Ham. destruct x as [[flag t] p].
  destruct v; simpl;
    unfold GPTModelTextGenerationStrategy.prepare_batch_at_step,
      NevaModelTextGenerationStrategy.prepare_batch_at_step,
      PromptLearningModelTextGenerationStrategy.prepare_batch_at_step,
      RetroModelTextGenerationStrategy.prepare_batch_at_step;
    rewrite Hsel; simpl; by rewrite Ham.
Qed.

Lemma length_concat_replicate {A} (n : nat) (a : list A) :
  length (concat (replicate n a)) = (n * length a)%nat.
Proof.
  induction n as [|n IH]; simpl; [done|]. by rewrite length_app, IH.
Qed.

(** X4: the attention mask of the batch.  Once the columns are selected:
    asking for a mask with a [micro_batch_size] that is not positive raises
    [RuntimeError]; asking for one when the strategy holds none raises
    [TypeError]; a call that does not ask for one puts [None] in the second
    place of the batch, even when a mask is stored; and a call that asks
    for one puts there [micro_batch_size] copies of the stored mask, joined
    along the first dimension. *)
Theorem prepare_batch_at_step_attention_mask (v : Variant) (self : Strategy)
    (tokens : grid) (maxlen micro_batch_size step context_length : Z)
    (media : value) (extra : gmap string value) (x : bool * grid * grid) :
  TextGenerationStrategy.select_step self tokens micro_batch_size step
    context_length = Ok x →
  (micro_batch_size <= 0 →
   prepare_batch_at_step v self tokens maxlen micro_batch_size step
     context_length true media extra = Err RuntimeError) ∧
  (0 < micro_batch_size → attention_mask self = None →
   prepare_batch_at_step v self tokens maxlen micro_batch_size step
     context_length true media extra = Err TypeError) ∧
  (∀ batch shape,
     prepare_batch_at_step v self tokens maxlen micro_batch_size step
       context_length false media extra = Ok (batch, shape) →
     batch !! 1%nat = Some VNone) ∧
  (∀ a batch shape,
     attention_mask self = Some a →
     prepare_batch_at_step v self tokens maxlen micro_batch_size step
       context_length true media extra = Ok (batch, shape) →
     batch !! 1%nat = Some (VMask (concat (replicate (Z.to_nat micro_batch_size) a))) ∧
     length (concat (replicate (Z.to_nat micro_batch_size) a))
     = (Z.to_nat micro_batch_size * length a)%nat).
Proof.
  intros Hsel. split; [|split; [|split]].
  - intros Hm. apply (prepare_batch_at_step_fails_with _ _ _ _ _ _ _ _ _ _ x);
      [done|].
    unfold TextGenerationStrategy.attention_mask_repeat, concat_copies.
    by destruct (Z.leb_spec micro_batch_size 0); [|lia].
  - intros Hm Hnone.
    apply (prepare_batch_at_step_fails_with _ _ _ _ _ _ _ _ _ _ x); [done|].
    unfold TextGenerationStrategy.attention_mask_repeat, concat_copies.
    rewrite Hnone. by destruct (Z.leb_spec micro_batch_size 0); [lia|].
  - intros batch shape Hrun.
    destruct (prepare_batch_at_step_layout _ _ _ _ _ _ _ _ _ _ _ _ Hrun)
      as (flag & t & p & am & extras & _ & Ham & _ & -> & _).
    simpl in Ham. by injection Ham as <-.
  - intros a batch shape Ha Hrun.
    destruct (prepare_batch_at_step_layout _ _ _ _ _ _ _ _ _ _ _ _ Hrun)
      as (flag & t & p & am & extras & _ & Ham & _ & -> & _).
    split; [|apply length_concat_replicate].
    unfold TextGenerationStrategy.attention_mask_repeat, concat_copies in Ham.
    rewrite Ha in Ham.
    destruct (Z.leb_spec micro_batch_size 0); [done|].
    simpl in Ham. by injection Ham as <-.
Qed.

Lemma prepare_batch_at_step_attention_mask_witness :
  prepare_batch_at_step GPT Session.gpt_strategy Session.tokens 10 0 0 2
    true VNone ∅ = Err RuntimeError ∧
  ∃ batch shape,
    prepare_batch_at_step GPT Session.gpt_strategy Session.tokens 10 2 0 2
      true VNone ∅ = Ok (batch, shape) ∧
    batch !! 1%nat = Some (VMask [[[[true]]]; [[[true]]]]).
Proof.
  split.
  - by apply (prepare_batch_at_step_attention_mask GPT Session.gpt_strategy
                Session.tokens 10 0 0 2 VNone ∅ _ eq_refl).
  - eexists _, _. split; [reflexivity|].
    destruct (prepare_batch_at_step_attention_mask GPT Session.gpt_strategy
                Session.tokens 10 2 0 2 VNone ∅ _ eq_refl)
      as (_ & _ & _ & Hmask).
    by destruct (Hmask [[[[true]]]] _ _ eq_refl eq_refl) as [Hb _].
Defined.

(** X5: the retrieval strategy raises [KeyError] for [neighbors_tokens]
    when the call carries no such keyword, once the columns and the
    attention mask have been obtained. *)
Theorem retro_prepare_batch_at_step_missing_neighbors (self : Strategy)
    (tokens : grid) (maxlen micro_batch_size step context_length : Z)
    (compute_attention_mask : bool) (extra : gmap string value)
    (x : bool * grid * grid) (am : value) :
  TextGenerationStrategy.select_step self tokens micro_batch_size step
    context_length = Ok x →
  TextGenerationStrategy.attention_mask_repeat self micro_batch_size
    compute_attention_mask = Ok am →
  extra !! "neighbors_tokens" = None →
  RetroModelTextGenerationStrategy.prepare_batch_at_step self tokens maxlen
    micro_batch_size step context_length compute_attention_mask extra
  = Err (KeyError "neighbors_tokens").
Proof.
  intros Hsel Ham Hkey. destruct x as [[flag t] p].
  unfold RetroModelTextGenerationStrategy.prepare_batch_at_step.
  rewrite Hsel. simpl. rewrite Ham. simpl. by rewrite Hkey.
Qed.

Lemma retro_prepare_batch_at_step_missing_neighbors_witness :
  RetroModelTextGenerationStrategy.prepare_batch_at_step Session.gpt_strategy
    Session.tokens 10 2 0 2 true {[ "neighbours" := VNone ]}
  = Err (KeyError "neighbors_tokens").
Proof.
  by apply (retro_prepare_batch_at_step_missing_neighbors Session.gpt_strategy
              Session.tokens 10 2 0 2 true _ _ _ eq_refl eq_refl).
Defined.

Lemma cols_upto_whole (t : grid) (c : Z) :
  grid_wf t → Z.of_nat (ncols t) <= c → cols_upto t c = t.
Proof.
  intros Hwf Hc. unfold cols_upto.
  rewrite slice_stop_nonneg by lia.
  replace (Z.to_nat c `min` ncols t)%nat with (ncols t) by lia.
  destruct t as [n rows]. simpl in *. f_equal.
  unfold grid_wf in Hwf. simpl in Hwf.
  induction Hwf as [|r rows Hr _ IH]; simpl; [done|].
  rewrite IH. f_equal. apply take_ge. lia.
Qed.

Lemma cols_upto_from_the_end (t : grid) (c : Z) :
  grid_wf t → c < 0 →
  leading_columns (cols_upto t c) t (Z.max 0 (Z.of_nat (ncols t) + c)).
Proof.
  intros Hwf Hc. unfold leading_columns, cols_upto, nrows, grid_get, grid_wf.
  simpl.
  assert (Hk : slice_stop (ncols t) c = Z.to_nat (Z.max 0 (Z.of_nat (ncols t) + c))).
  { unfold slice_stop. by destruct (Z.ltb_spec c 0); [|lia]. }
  rewrite Hk.
  split; [|split; [done|split; [by rewrite length_map|]]].
  - apply Forall_forall. intros r Hin.
    apply list_elem_of_In, in_map_iff in Hin as (r0 & <- & Hr0).
    apply list_elem_of_In, list_elem_of_lookup_1 in Hr0 as [i Hi].
    rewrite length_take, (grid_wf_row t i r0) by done. lia.
  - intros i j Hj. rewrite map_is_fmap, list_lookup_fmap.
    destruct (trows t !! i) as [r|]; [simpl | done].
    by rewrite lookup_take_lt.
Qed.

(** X6: the prefill step never fails on [context_length] and does not
    compare the number of rows with [micro_batch_size]: the slice is
    clamped.  A [context_length] at or beyond the width selects the whole
    token grid, and a negative one leaves out that many trailing
    columns. *)
Theorem prepare_batch_at_step_prefill_clamps (v : Variant) (self : Strategy)
    (tokens : grid) (maxlen micro_batch_size context_length : Z)
    (compute_attention_mask : bool) (media : value) (extra : gmap string value) :
  grid_wf tokens → 0 < micro_batch_size →
  (compute_attention_mask = true → is_Some (attention_mask self)) →
  (v = Retro → is_Some (extra !! "neighbors_tokens")) →
  ∃ t p am extras shape,
    prepare_batch_at_step v self tokens maxlen micro_batch_size 0
      context_length compute_attention_mask media extra
    = Ok ([VGrid t; am; VGrid p] ++ extras
          ++ [VBools (replicate (Z.to_nat micro_batch_size) true);
              VVec (replicate (Z.to_nat micro_batch_size) maxlen)], shape) ∧
    (Z.of_nat (ncols tokens) <= context_length → t = tokens) ∧
    (context_length < 0 →
     leading_columns t tokens (Z.max 0 (Z.of_nat (ncols tokens) + context_length))).
Proof.
  intros Hwf Hm Hmask Hextra.
  destruct (attention_mask_repeat_returns self micro_batch_size
              compute_attention_mask Hm Hmask) as [am Ham].
  assert (Hex : ∃ extras, extra_inputs v self media extra = Some extras).
  { destruct v; simpl; try by eexists.
    destruct (Hextra eq_refl) as [nt ->]. by eexists. }
  destruct Hex as [extras Hex].
  exists (cols_upto tokens context_length),
    (cols_upto (position_ids self) context_length), am, extras.
  eexists. split.
  - by apply prepare_batch_at_step_from_parts.
  - split; [by apply cols_upto_whole | by apply cols_upto_from_the_end].
Qed.

Lemma prepare_batch_at_step_prefill_clamps_witness :
  ∃ t p am extras shape,
    prepare_batch_at_step GPT Session.gpt_strategy
      (Grid 3 [[5; 6; 9]; [7; 8; 9]; [1; 2; 3]]) 10 2 0 7 false VNone ∅
    = Ok ([VGrid t; am; VGrid p] ++ extras
          ++ [VBools [true; true]; VVec [10; 10]], shape) ∧
    t = Grid 3 [[5; 6; 9]; [7; 8; 9]; [1; 2; 3]].
Proof.
  destruct (prepare_batch_at_step_prefill_clamps GPT Session.gpt_strategy
              (Grid 3 [[5; 6; 9]; [7; 8; 9]; [1; 2; 3]]) 10 2 7 false VNone ∅)
    as (t & p & am & extras & shape & Hrun & Hall & _).
  - repeat constructor.
  - lia.
  - discriminate.
  - discriminate.
  - exists t, p, am, extras, shape. split; [exact Hrun|].
    apply Hall. simpl. lia.
Defined.

(** X7: the step counter matters only through being zero or not: every
    other value, negative ones included, gives the batch of step 1. *)
Theorem prepare_batch_at_step_nonzero_step (v : Variant) (self : Strategy)
    (tokens : grid) (maxlen micro_batch_size step context_length : Z)
    (compute_attention_mask : bool) (media : value) (extra : gmap string value) :
  step ≠ 0 →
  prepare_batch_at_step v self tokens maxlen micro_batch_size step
    context_length compute_attention_mask media extra
  = prepare_batch_at_step v self tokens maxlen micro_batch_size 1
      context_length compute_attention_mask media extra.
Proof.
  intros Hstep.
  assert (Hsel : TextGenerationStrategy.select_step self tokens
                   micro_batch_size step context_length
                 = TextGenerationStrategy.select_step self tokens
                     micro_batch_size 1 context_length).
  { unfold TextGenerationStrategy.select_step.
    by destruct (Z.eqb_spec step 0). }
  destruct v; simpl;
    unfold GPTModelTextGenerationStrategy.prepare_batch_at_step,
      NevaModelTextGenerationStrategy.prepare_batch_at_step,
      PromptLearningModelTextGenerationStrategy.prepare_batch_at_step,
      RetroModelTextGenerationStrategy.prepare_batch_at_step;
    by rewrite Hsel.
Qed.

Lemma prepare_batch_at_step_nonzero_step_witness :
  prepare_batch_at_step Neva Session.gpt_strategy Session.tokens 10 2 (-4) 2
    true (VVec [1; 2]) ∅
  = prepare_batch_at_step Neva Session.gpt_strategy Session.tokens 10 2 1 2
      true (VVec [1; 2]) ∅.
Proof. by apply prepare_batch_at_step_nonzero_step. Defined.

(** X8: preparing a batch and running the forward step on it.  Under the
    caller's contract the forward-backward function is called once, on the
    prepared batch alone, forward only, with [micro_batch_size] as given
    and with [seq_length] equal to [context_length] at step 0 and to 1 at
    any other step. *)
Theorem forward_step_after_prepare (Output : Type)
    (fwd_bwd_function : list (list value) → Z → bool → Z → Z → result Output)
    (num_microbatches : Z)
    (v : Variant) (self : Strategy)
    (tokens : grid) (maxlen micro_batch_size step context_length : Z)
    (compute_attention_mask : bool) (media : value) (extra : gmap string value) :
  caller_contract v self tokens micro_batch_size compute_attention_mask extra →
  (if decide (step = 0) then 0 <= context_length <= Z.of_nat (ncols tokens)
   else 1 <= context_length <= Z.of_nat (ncols tokens)) →
  ∃ batch shape,
    prepare_batch_at_step v self tokens maxlen micro_batch_size step
      context_length compute_attention_mask media extra = Ok (batch, shape) ∧
    shape = [if decide (step = 0) then context_length else 1;
             micro_batch_size; hidden_size_of v self] ∧
    forward_step Output fwd_bwd_function num_microbatches batch shape
    = fwd_bwd_function [batch] num_microbatches true
        (if decide (step = 0) then context_length else 1) micro_batch_size.
Proof.
  intros Hcall Hc.
  pose proof Hcall as (Hwt & Hwp & Hm & Hrt & Hrp & Hcols & _ & _).
  destruct (decide (step = 0)) as [-> | Hne].
  - destruct (prepare_batch_at_step_returns v self tokens maxlen
                micro_batch_size 0 context_length compute_attention_mask
                media extra _ _ _ Hcall
                (select_step_prefill self tokens micro_batch_size context_length))
      as (am & extras & _ & Hrun).
    eexists _, _. split; [exact Hrun|].
    simpl. rewrite slice_stop_nonneg by lia.
    replace (Z.of_nat (Z.to_nat context_length `min` ncols tokens))
      with context_length by lia.
    done.
  - assert (Hsel := select_step_decode self tokens micro_batch_size step
                      context_length Hne Hm Hrt Hrp Hcols Hc).
    destruct (prepare_batch_at_step_returns v self tokens maxlen
                micro_batch_size step context_length compute_attention_mask
                media extra _ _ _ Hcall Hsel)
      as (am & extras & _ & Hrun).
    eexists _, _. split; [exact Hrun|]. done.
Qed.

Lemma forward_step_after_prepare_witness :
  ∃ batch shape,
    prepare_batch_at_step Retro Session.gpt_strategy Session.tokens 10 2 0 2
      true VNone {[ "neighbors_tokens" := VGrid (Grid 2 [[1; 2]]) ]}
    = Ok (batch, shape) ∧
    shape = [2; 2; 16] ∧
    forward_step Z (fun data n fwd s m => Ok (n + s + m)) 1 batch shape = Ok 5.
Proof.
  destruct (forward_step_after_prepare Z (fun data n fwd s m => Ok (n + s + m)) 1
              Retro Session.gpt_strategy Session.tokens 10 2 0 2 true VNone _
              (session_contract Retro))
    as (batch & shape & Hrun & Hshape & Hfwd).
  - unfold Session.tokens. simpl. lia.
  - by exists batch, shape.
Defined.

(** ** Resolution of the end strings: what the loop keeps *)

Section ResolutionLoop.

Variable tk : Tokenizer.

Abbreviation step := (TextGenerationStrategy.resolve_end_string tk).
Abbreviation loop := (TextGenerationStrategy.resolve_end_strings tk).
Abbreviation cache_of := TextGenerationStrategy.res_cache.
Abbreviation tokens_of := TextGenerationStrategy.end_tokens.
Abbreviation strings_of := TextGenerationStrategy.end_strings_to_check.

(** One iteration in terms of [outcome]: the end string contributes its
    token, or itself as a string to compare. *)
Lemma step_by_outcome (s : string) (st : TextGenerationStrategy.resolution) :
  match outcome tk (cache_of st) s with
  | Some t =>
      tokens_of (snd (step s st)) = tokens_of st ∪ {[t]} ∧
      strings_of (snd (step s st)) = strings_of st ∧
      cache_end_string_to_token (cache_of (snd (step s st))) !! s = Some t
  | None =>
      tokens_of (snd (step s st)) = tokens_of st ∧
      strings_of (snd (step s st)) = strings_of st ++ [s] ∧
      cache_end_string_to_token (cache_of (snd (step s st))) !! s = None ∧
      s ∈ cache_end_strings_to_check (cache_of (snd (step s st)))
  end.
Proof.
  unfold outcome, heuristic_token, TextGenerationStrategy.resolve_end_string.
  destruct (cache_end_string_to_token (cache_of st) !! s) as [t|] eqn:Hmap;
    simpl; [done|].
  case_bool_decide as Hin; simpl; [done|].
  destruct (TextGenerationStrategy.one_extra_token _ _); simpl.
  - by rewrite lookup_insert_eq.
  - repeat split; [done | set_solver].
Qed.

(** The iteration on [s] does not change what the cache answers. *)
Lemma step_keeps_outcome (s s' : string) (st : TextGenerationStrategy.resolution) :
  outcome tk (cache_of (snd (step s st))) s' = outcome tk (cache_of st) s'.
Proof.
  unfold outcome at 2.
  unfold heuristic_token, TextGenerationStrategy.resolve_end_string.
  destruct (cache_end_string_to_token (cache_of st) !! s) as [t|] eqn:Hmap;
    simpl; [done|].
  case_bool_decide as Hin; simpl; [done|].
  fold (heuristic_token tk s').
  destruct (TextGenerationStrategy.one_extra_token _ _) eqn:Htest;
    unfold outcome; simpl.
  - destruct (decide (s = s')) as [<- | Hne].
    + rewrite lookup_insert_eq, Hmap, bool_decide_eq_false_2 by done.
      unfold heuristic_token. by rewrite Htest.
    + by rewrite lookup_insert_ne.
  - destruct (cache_end_string_to_token (cache_of st) !! s') as [t|] eqn:Hmap';
      [done|].
    destruct (decide (s = s')) as [<- | Hne].
    + rewrite bool_decide_eq_true_2 by set_solver.
      rewrite bool_decide_eq_false_2 by done.
      unfold heuristic_token. by rewrite Htest.
    + destruct (decide (s' ∈ cache_end_strings_to_check (cache_of st)))
        as [Hold | Hold].
      * rewrite !bool_decide_eq_true_2; [done | done | set_unfold; tauto].
      * rewrite !bool_decide_eq_false_2; [done | done |].
        intros [Hin' | Heq]%elem_of_union; [done|].
        apply elem_of_singleton in Heq. congruence.
Qed.

Lemma loop_keeps_outcome (strs : list string) (s' : string)
    (st : TextGenerationStrategy.resolution) :
  outcome tk (cache_of (snd (loop strs st))) s' = outcome tk (cache_of st) s'.
Proof.
  revert st. induction strs as [|s strs IH]; intros st; simpl; [done|].
  pose proof (step_keeps_outcome s s' st) as Hstep.
  destruct (step s st) as [tr1 st1]. simpl in *.
  specialize (IH st1).
  destruct (loop strs st1) as [tr2 st2]. simpl in *. congruence.
Qed.

(** Two runs of the loop from caches that answer alike collect the same
    tokens and the same strings. *)
Lemma loop_by_outcome (strs : list string)
    (st1 st2 : TextGenerationStrategy.resolution) :
  (∀ s, outcome tk (cache_of st1) s = outcome tk (cache_of st2) s) →
  tokens_of st1 = tokens_of st2 →
  strings_of st1 = strings_of st2 →
  tokens_of (snd (loop strs st1)) = tokens_of (snd (loop strs st2)) ∧
  strings_of (snd (loop strs st1)) = strings_of (snd (loop strs st2)).
Proof.
  revert st1 st2. induction strs as [|s strs IH]; intros st1 st2 Hout Het Hsc;
    simpl; [done|].
  pose proof (step_by_outcome s st1) as H1.
  pose proof (step_by_outcome s st2) as H2.
  pose proof (fun s' => step_keeps_outcome s s' st1) as K1.
  pose proof (fun s' => step_keeps_outcome s s' st2) as K2.
  rewrite <- Hout in H2.
  destruct (step s st1) as [tr1 st1']. destruct (step s st2) as [tr2 st2'].
  simpl in *.
  assert (Hnext : tokens_of st1' = tokens_of st2' ∧ strings_of st1' = strings_of st2').
  { destruct (outcome tk (cache_of st1) s).
    - destruct H1 as (-> & -> & _), H2 as (-> & -> & _). by rewrite Het, Hsc.
    - destruct H1 as (-> & -> & _), H2 as (-> & -> & _). by rewrite Het, Hsc. }
  destruct Hnext as [Het' Hsc'].
  specialize (IH st1' st2').
  destruct (loop strs st1') as [tr1' st1'']. destruct (loop strs st2') as [tr2' st2''].
  simpl in *. apply IH; [|done..].
  intros s'. by rewrite K1, K2.
Qed.

(** The tables of the cache and the two collections only grow. *)
Lemma step_grows (s : string) (st : TextGenerationStrategy.resolution) :
  cache_end_string_to_token (cache_of st)
    ⊆ cache_end_string_to_token (cache_of (snd (step s st))) ∧
  cache_end_strings_to_check (cache_of st)
    ⊆ cache_end_strings_to_check (cache_of (snd (step s st))) ∧
  tokens_of st ⊆ tokens_of (snd (step s st)) ∧
  strings_of st `prefix_of` strings_of (snd (step s st)).
Proof.
  unfold TextGenerationStrategy.resolve_end_string.
  destruct (cache_end_string_to_token (cache_of st) !! s) as [t|] eqn:Hmap;
    simpl.
  { repeat split; [done | done | set_solver | done]. }
  case_bool_decide as Hin; simpl.
  { repeat split; [done | done | done | by apply prefix_app_r]. }
  destruct (TextGenerationStrategy.one_extra_token _ _); simpl.
  - repeat split; [by apply insert_subseteq | done | set_solver | done].
  - repeat split; [done | set_solver | done | by apply prefix_app_r].
Qed.

Lemma loop_grows (strs : list string) (st : TextGenerationStrategy.resolution) :
  cache_end_string_to_token (cache_of st)
    ⊆ cache_end_string_to_token (cache_of (snd (loop strs st))) ∧
  cache_end_strings_to_check (cache_of st)
    ⊆ cache_end_strings_to_check (cache_of (snd (loop strs st))) ∧
  tokens_of st ⊆ tokens_of (snd (loop strs st)) ∧
  strings_of st `prefix_of` strings_of (snd (loop strs st)).
Proof.
  revert st. induction strs as [|s strs IH]; intros st; simpl; [done|].
  destruct (step_grows s st) as (M1 & C1 & T1 & S1).
  destruct (step s st) as [tr1 st1]. simpl in *.
  destruct (IH st1) as (M2 & C2 & T2 & S2).
  destruct (loop strs st1) as [tr2 st2]. simpl in *.
  repeat split; by etrans.
Qed.

(** Every end string met by the loop is honoured in its result. *)
Lemma loop_complete (strs : list string) (st : TextGenerationStrategy.resolution)
    (s : string) :
  s ∈ strs →
  (∃ t, cache_end_string_to_token (cache_of (snd (loop strs st))) !! s = Some t ∧
        t ∈ tokens_of (snd (loop strs st))) ∨
  (s ∈ strings_of (snd (loop strs st)) ∧
   s ∈ cache_end_strings_to_check (cache_of (snd (loop strs st)))).
Proof.
  revert st. induction strs as [|s0 strs IH]; intros st Hin.
  { by apply elem_of_nil in Hin. }
  simpl.
  pose proof (step_by_outcome s0 st) as Hstep.
  destruct (step s0 st) as [tr1 st1] eqn:E1. simpl in *.
  pose proof (loop_grows strs st1) as (M & C & T & S).
  specialize (IH st1).
  destruct (loop strs st1) as [tr2 st2]. simpl in *.
  apply elem_of_cons in Hin as [-> | Hin]; [|by apply IH].
  destruct (outcome tk (cache_of st) s0) as [t|].
  - destruct Hstep as (Ht & _ & Hmap). left. exists t. split.
    + by eapply lookup_weaken.
    + apply T. rewrite Ht. apply elem_of_union_r. by apply elem_of_singleton.
  - destruct Hstep as (_ & Hs & _ & Hc). right. split.
    + destruct S as [k ->]. rewrite Hs. set_solver.
    + by apply C.
Qed.

(** Nothing enters the result that does not come from an end string. *)
Lemma loop_sound (strs : list string) (st : TextGenerationStrategy.resolution) :
  (∀ t, t ∈ tokens_of (snd (loop strs st)) →
        t ∈ tokens_of st ∨
        ∃ s, s ∈ strs ∧
             cache_end_string_to_token (cache_of (snd (loop strs st))) !! s = Some t) ∧
  (∀ s, s ∈ strings_of (snd (loop strs st)) →
        s ∈ strings_of st ∨
        (s ∈ strs ∧ s ∈ cache_end_strings_to_check (cache_of (snd (loop strs st))))).
Proof.
  revert st. induction strs as [|s0 strs IH]; intros st.
  { simpl. split; intros; by left. }
  simpl.
  pose proof (step_by_outcome s0 st) as Hstep.
  destruct (step s0 st) as [tr1 st1] eqn:E1. simpl in *.
  pose proof (loop_grows strs st1) as (M & C & T & S).
  destruct (IH st1) as [IHt IHs].
  destruct (loop strs st1) as [tr2 st2]. simpl in *.
  split.
  - intros t Ht. destruct (IHt t Ht) as [H1 | (s & Hs & Hmap)].
    + destruct (outcome tk (cache_of st) s0) as [t0|].
      * destruct Hstep as (Het & _ & Hmap0). rewrite Het in H1.
        apply elem_of_union in H1 as [H1 | H1]; [by left|].
        apply elem_of_singleton in H1 as ->.
        right. exists s0. split; [by left | by eapply lookup_weaken].
      * destruct Hstep as (Het & _). rewrite Het in H1. by left.
    + right. exists s. split; [by right | done].
  - intros s Hs. destruct (IHs s Hs) as [H1 | [Hin Hc]].
    + destruct (outcome tk (cache_of st) s0) as [t0|].
      * destruct Hstep as (_ & Hsc & _). rewrite Hsc in H1. by left.
      * destruct Hstep as (_ & Hsc & _ & Hc0). rewrite Hsc in H1.
        apply elem_of_app in H1 as [H1 | H1]; [by left|].
        apply list_elem_of_singleton in H1 as ->.
        right. split; [by left | by apply C].
    + right. split; [by right | done].
Qed.

(** A cache that keeps tokens and strings to compare apart stays so. *)
Lemma step_keeps_disjoint (s : string) (st : TextGenerationStrategy.resolution) :
  cache_disjoint (cache_of st) → cache_disjoint (cache_of (snd (step s st))).
Proof.
  unfold cache_disjoint, TextGenerationStrategy.resolve_end_string.
  intros Hdis.
  destruct (cache_end_string_to_token (cache_of st) !! s) as [t|] eqn:Hmap;
    simpl; [done|].
  case_bool_decide as Hin; simpl; [done|].
  destruct (TextGenerationStrategy.one_extra_token _ _); simpl.
  - intros s' Hs'. rewrite lookup_insert_ne; [by apply Hdis | congruence].
  - intros s' Hs'. apply elem_of_union in Hs' as [Hs' | Hs'];
      [by apply Hdis|].
    by apply elem_of_singleton in Hs' as ->.
Qed.

Lemma loop_keeps_disjoint (strs : list string)
    (st : TextGenerationStrategy.resolution) :
  cache_disjoint (cache_of st) → cache_disjoint (cache_of (snd (loop strs st))).
Proof.
  revert st. induction strs as [|s strs IH]; intros st Hdis; simpl; [done|].
  pose proof (step_keeps_disjoint s st Hdis) as H1.
  destruct (step s st) as [tr1 st1]. simpl in *.
  specialize (IH st1 H1).
  by destruct (loop strs st1) as [tr2 st2].
Qed.

End ResolutionLoop.

(** ** Resolution of the end strings: the whole call *)

Lemma get_end_of_generation_unfold (self : Strategy) (eod_id : Z)
    (end_strings : list string) :
  let run :=
    TextGenerationStrategy.resolve_end_strings (tokenizer (model self)) end_strings
      {| TextGenerationStrategy.res_cache :=
           TextGenerationStrategy.current_cache self eod_id;
         TextGenerationStrategy.end_tokens := {[ eod_id ]};
         TextGenerationStrategy.end_strings_to_check := [] |} in
  TextGenerationStrategy._get_end_of_generation_tokens_and_strings
    self eod_id end_strings
  = (set_end_of_generation_cache self
       (Some (TextGenerationStrategy.res_cache (snd run))),
     fst run,
     (TextGenerationStrategy.end_tokens (snd run),
      TextGenerationStrategy.end_strings_to_check (snd run))).
Proof.
  unfold TextGenerationStrategy._get_end_of_generation_tokens_and_strings.
  simpl. by destruct (TextGenerationStrategy.resolve_end_strings _ _ _).
Qed.

(** X9: no end string is dropped.  After the call every end string is
    either recorded in the cache with a token that belongs to the returned
    [end_tokens], or returned among the strings to compare and recorded as
    such in the cache. *)
Theorem end_strings_all_accounted_for (self : Strategy) (eod_id : Z)
    (end_strings : list string) (s : string) :
  s ∈ end_strings →
  let r := TextGenerationStrategy._get_end_of_generation_tokens_and_strings
             self eod_id end_strings in
  ∃ c, _end_of_generation_cache r.1.1 = Some c ∧
       ((∃ t, cache_end_string_to_token c !! s = Some t ∧ t ∈ r.2.1) ∨
        (s ∈ r.2.2 ∧ s ∈ cache_end_strings_to_check c)).
Proof.
  intros Hin r. subst r. rewrite get_end_of_generation_unfold. simpl.
  eexists. split; [done|]. by apply loop_complete.
Qed.

Lemma end_strings_all_accounted_for_witness :
  let r := TextGenerationStrategy._get_end_of_generation_tokens_and_strings
             Session.gpt_strategy 9 ["Done"; "STOP"] in
  ∃ c, _end_of_generation_cache r.1.1 = Some c ∧
       ((∃ t, cache_end_string_to_token c !! "STOP" = Some t ∧ t ∈ r.2.1) ∨
        ("STOP" ∈ r.2.2 ∧ "STOP" ∈ cache_end_strings_to_check c)).
Proof.
  apply (end_strings_all_accounted_for Session.gpt_strategy 9 ["Done"; "STOP"]).
  apply list_elem_of_In. simpl. tauto.
Defined.

(** X10: nothing else stops the generation.  Each returned end token is
    [eod_id] or the token the cache records for one of the end strings,
    and each returned string to compare is one of the end strings. *)
Theorem end_of_generation_tokens_and_strings_sound (self : Strategy)
    (eod_id : Z) (end_strings : list string) :
  let r := TextGenerationStrategy._get_end_of_generation_tokens_and_strings
             self eod_id end_strings in
  ∃ c, _end_of_generation_cache r.1.1 = Some c ∧
       (∀ t, t ∈ r.2.1 →
             t = eod_id ∨
             ∃ s, s ∈ end_strings ∧ cache_end_string_to_token c !! s = Some t) ∧
       (∀ s, s ∈ r.2.2 →
             s ∈ end_strings ∧ s ∈ cache_end_strings_to_check c).
Proof.
  intros r. subst r. rewrite get_end_of_generation_unfold. simpl.
  eexists. split; [done|].
  match goal with
  | |- context [TextGenerationStrategy.resolve_end_strings ?tk ?l ?st] =>
      destruct (loop_sound tk l st) as [Ht Hs]
  end.
  simpl in *. split.
  - intros t Hin. destruct (Ht t Hin) as [H | H]; [left | by right].
    by apply elem_of_singleton in H.
  - intros s Hin. destruct (Hs s Hin) as [H | H]; [|done].
    by apply elem_of_nil in H.
Qed.

(** X11: while the tokenizer stays the same object the cache only grows:
    every token and every string to compare recorded before the call is
    recorded, unchanged, after it. *)
Theorem end_of_generation_cache_grows (self : Strategy) (eod_id : Z)
    (end_strings : list string) (c : Cache) :
  _end_of_generation_cache self = Some c →
  tok_ident (cache_tokenizer c) = tok_ident (tokenizer (model self)) →
  ∃ c', _end_of_generation_cache
          (TextGenerationStrategy._get_end_of_generation_tokens_and_strings
             self eod_id end_strings).1.1 = Some c' ∧
        cache_tokenizer c' = cache_tokenizer c ∧
        (∀ s t, cache_end_string_to_token c !! s = Some t →
                cache_end_string_to_token c' !! s = Some t) ∧
        (∀ s, s ∈ cache_end_strings_to_check c →
              s ∈ cache_end_strings_to_check c').
Proof.
  intros Hc Hid. rewrite get_end_of_generation_unfold. simpl.
  rewrite (current_cache_kept self eod_id c Hc Hid).
  eexists. split; [done|].
  match goal with
  | |- context [TextGenerationStrategy.resolve_end_strings ?tk ?l ?st] =>
      destruct (loop_grows tk l st) as (M & C & _ & _);
      destruct (resolve_end_strings_records tk l st) as (_ & _ & Htk)
  end.
  simpl in *. split; [done|]. split.
  - intros s t Hs. by eapply lookup_weaken.
  - intros s Hs. by apply C.
Qed.

Lemma end_of_generation_cache_grows_witness :
  ∃ c', _end_of_generation_cache
          (TextGenerationStrategy._get_end_of_generation_tokens_and_strings
             (set_end_of_generation_cache Session.gpt_strategy
                (Some (TextGenerationStrategy.fresh_cache Session.tk 9)))
             9 ["Done"]).1.1 = Some c' ∧
        cache_end_string_to_token c' !! END_OF_SEQ = Some 9.
Proof.
  destruct (end_of_generation_cache_grows
              (set_end_of_generation_cache Session.gpt_strategy
                 (Some (TextGenerationStrategy.fresh_cache Session.tk 9)))
              9 ["Done"] _ eq_refl eq_refl) as (c' & Hc' & _ & Hmap & _).
  exists c'. split; [exact Hc'|]. by apply Hmap.
Defined.

Lemma current_cache_disjoint (self : Strategy) (eod_id : Z) :
  (∀ c, _end_of_generation_cache self = Some c → cache_disjoint c) →
  cache_disjoint (TextGenerationStrategy.current_cache self eod_id).
Proof.
  intros Hdis. unfold TextGenerationStrategy.current_cache.
  assert (Hfresh : ∀ tk, cache_disjoint (TextGenerationStrategy.fresh_cache tk eod_id)).
  { intros tk s Hs. simpl in Hs. by apply not_elem_of_empty in Hs. }
  destruct (_end_of_generation_cache self) as [c|]; [|done].
  destruct (TextGenerationStrategy.cache_is_stale _ _); [done | by apply Hdis].
Qed.

(** X12: the two tables of the cache stay apart.  If the cache, when there
    is one, records no end string both as a token and as a string to
    compare, the same holds after the call, and none of the strings
    returned for comparison has a token in the cache. *)
Theorem end_of_generation_cache_stays_disjoint (self : Strategy) (eod_id : Z)
    (end_strings : list string) :
  (∀ c, _end_of_generation_cache self = Some c → cache_disjoint c) →
  let r := TextGenerationStrategy._get_end_of_generation_tokens_and_strings
             self eod_id end_strings in
  ∃ c', _end_of_generation_cache r.1.1 = Some c' ∧
        cache_disjoint c' ∧
        ∀ s, s ∈ r.2.2 → cache_end_string_to_token c' !! s = None.
Proof.
  intros Hdis r. subst r. rewrite get_end_of_generation_unfold. simpl.
  eexists. split; [done|].
  match goal with
  | |- context [TextGenerationStrategy.resolve_end_strings ?tk ?l ?st] =>
      pose proof (loop_keeps_disjoint tk l st) as Hd;
      destruct (loop_sound tk l st) as [_ Hs]
  end.
  simpl in *. specialize (Hd (current_cache_disjoint self eod_id Hdis)).
  split; [done|].
  intros s Hin. apply Hd.
  destruct (Hs s Hin) as [H | [_ H]]; [by apply elem_of_nil in H | done].
Qed.

Lemma end_of_generation_cache_stays_disjoint_witness :
  let r := TextGenerationStrategy._get_end_of_generation_tokens_and_strings
             Session.gpt_strategy 9 ["Done"; "STOP"] in
  ∃ c', _end_of_generation_cache r.1.1 = Some c' ∧
        cache_disjoint c' ∧
        ∀ s, s ∈ r.2.2 → cache_end_string_to_token c' !! s = None.
Proof.
  apply (end_of_generation_cache_stays_disjoint Session.gpt_strategy 9
           ["Done"; "STOP"]).
  intros c Hc. discriminate Hc.
Defined.

(** Repeating the resolution on the strategy it leaves gives the same
    tokens and strings, with no call to the tokenizer and no warning. *)
Lemma get_end_of_generation_repeat (self : Strategy) (eod_id : Z)
    (end_strings : list string) :
  let r := TextGenerationStrategy._get_end_of_generation_tokens_and_strings
             self eod_id end_strings in
  TextGenerationStrategy._get_end_of_generation_tokens_and_strings
    r.1.1 eod_id end_strings = (r.1.1, [], r.2).
Proof.
  intros r. subst r.
  rewrite (get_end_of_generation_unfold self). cbv zeta.
  set (st0 := TextGenerationStrategy.Build_resolution
                (TextGenerationStrategy.current_cache self eod_id) {[ eod_id ]} []).
  set (run := TextGenerationStrategy.resolve_end_strings
                (tokenizer (model self)) end_strings st0).
  destruct (resolve_end_strings_records (tokenizer (model self)) end_strings st0)
    as (Hall & _ & Htk).
  fold run in Hall, Htk.
  set (c := TextGenerationStrategy.res_cache run.2) in *.
  change (set_end_of_generation_cache self (Some c), run.1,
          (TextGenerationStrategy.end_tokens run.2,
           TextGenerationStrategy.end_strings_to_check run.2)).1.1
    with (set_end_of_generation_cache self (Some c)).
  change (set_end_of_generation_cache self (Some c), run.1,
          (TextGenerationStrategy.end_tokens run.2,
           TextGenerationStrategy.end_strings_to_check run.2)).2
    with (TextGenerationStrategy.end_tokens run.2,
          TextGenerationStrategy.end_strings_to_check run.2).
  set (s1 := set_end_of_generation_cache self (Some c)).
  assert (Hid : tok_ident (cache_tokenizer c) = tok_ident (tokenizer (model s1))).
  { subst c. rewrite Htk. exact (current_cache_tokenizer self eod_id). }
  rewrite (get_end_of_generation_unfold s1). cbv zeta.
  rewrite (current_cache_kept s1 eod_id c eq_refl Hid).
  change (tokenizer (model s1)) with (tokenizer (model self)).
  set (st1 := TextGenerationStrategy.Build_resolution c {[ eod_id ]} []).
  destruct (resolve_end_strings_known (tokenizer (model self)) end_strings st1 Hall)
    as [Htr Hcache].
  destruct (loop_by_outcome (tokenizer (model self)) end_strings st1 st0)
    as [Het Hsc]; [|done|done|].
  { intros s. apply loop_keeps_outcome. }
  fold run in Het, Hsc.
  by rewrite Htr, Hcache, Het, Hsc.
Qed.

(** ** The end-of-generation test: repetition, cost and bounds *)

Lemma end_of_generation_condition_general_unfold (self : Strategy)
    (tokens : grid) (prev : list Z) (eod_id : Z) (end_strings : list string) :
  TextGenerationStrategy.only_end_of_document end_strings = false →
  let r := TextGenerationStrategy._get_end_of_generation_tokens_and_strings
             self eod_id end_strings in
  let is_end := map (fun p => bool_decide (p ∈ r.2.1)) prev in
  let checks := TextGenerationStrategy.suffix_checks (tokenizer (model self))
                  r.2.2 (trows tokens) 0 is_end in
  TextGenerationStrategy.end_of_generation_condition self tokens prev eod_id
    end_strings
  = match r.2.2 with
    | [] => (r.1.1, r.1.2, Ok is_end)
    | _ :: _ => (r.1.1, r.1.2 ++ checks.1, checks.2)
    end.
Proof.
  intros Hgen r is_end checks. subst checks is_end.
  unfold TextGenerationStrategy.end_of_generation_condition. rewrite Hgen.
  pose proof (get_end_of_generation_has_eod self eod_id end_strings) as Heod.
  fold r in Heod. subst r.
  destruct (TextGenerationStrategy._get_end_of_generation_tokens_and_strings
              self eod_id end_strings) as [[self' tr] [et sc]].
  simpl in *.
  rewrite bool_decide_eq_false_2 by (intros ->; by apply not_elem_of_empty in Heod).
  destruct sc as [|s sc]; [done|].
  by destruct (TextGenerationStrategy.suffix_checks _ _ _ _ _).
Qed.

Lemma suffix_checks_only_decodes (tk : Tokenizer) (strs : list string)
    (rows : list (list Z)) (idx : nat) (is_end : list bool) (e : event) :
  e ∈ (TextGenerationStrategy.suffix_checks tk strs rows idx is_end).1 →
  ∃ ids, e = IdsToText ids.
Proof.
  revert idx is_end. induction rows as [|row rows IH]; intros idx is_end; simpl.
  { intros H. by apply elem_of_nil in H. }
  destruct (is_end !! idx) as [b|].
  - specialize (IH (S idx)
                  (<[idx := b || existsb (endswith (ids_to_text tk row)) strs]> is_end)).
    destruct (TextGenerationStrategy.suffix_checks _ _ _ _ _) as [tr r].
    simpl in *. intros [-> | Hin]%elem_of_cons; [by eexists | by apply IH].
  - simpl. intros ->%list_elem_of_singleton. by eexists.
Qed.

Lemma suffix_checks_overflow (tk : Tokenizer) (strs : list string)
    (rows : list (list Z)) (idx : nat) (is_end : list bool) :
  (idx ≤ length is_end)%nat → (length is_end < idx + length rows)%nat →
  (TextGenerationStrategy.suffix_checks tk strs rows idx is_end).2 = Err IndexError.
Proof.
  revert idx is_end. induction rows as [|row rows IH]; intros idx is_end Hle Hlt;
    simpl in *; [lia|].
  destruct (is_end !! idx) as [b|] eqn:Hb; [|done].
  apply lookup_lt_Some in Hb.
  specialize (IH (S idx)
                (<[idx := b || existsb (endswith (ids_to_text tk row)) strs]> is_end)).
  rewrite length_insert in IH.
  destruct (TextGenerationStrategy.suffix_checks _ _ _ _ _) as [tr r].
  simpl in *. apply IH; lia.
Qed.

(** X13: the test can be repeated.  Calling [end_of_generation_condition]
    again, with the same arguments, on the strategy the first call leaves,
    returns the same answer and leaves the strategy as it is; the second
    call asks the tokenizer for nothing but the decoding of rows: it makes
    no [text_to_ids] call and issues no warning. *)
Theorem end_of_generation_condition_repeatable (self : Strategy) (tokens : grid)
    (prev : list Z) (eod_id : Z) (end_strings : list string) :
  let first :=
    TextGenerationStrategy.end_of_generation_condition self tokens prev eod_id
      end_strings in
  let second :=
    TextGenerationStrategy.end_of_generation_condition first.1.1 tokens prev
      eod_id end_strings in
  second.2 = first.2 ∧
  second.1.1 = first.1.1 ∧
  ∀ e, e ∈ second.1.2 → ∃ ids, e = IdsToText ids.
Proof.
  intros first second. subst second first.
  destruct (TextGenerationStrategy.only_end_of_document end_strings) eqn:Hgen.
  - unfold TextGenerationStrategy.end_of_generation_condition.
    rewrite Hgen. simpl.
    split; [done|]. split; [done|]. intros e H. by apply elem_of_nil in H.
  - rewrite (end_of_generation_condition_general_unfold self) by done.
    cbv zeta.
    pose proof (get_end_of_generation_repeat self eod_id end_strings) as Hrep.
    destruct (get_end_of_generation_leaves_cache self eod_id end_strings)
      as (Hmodel & _).
    cbv zeta in Hrep, Hmodel.
    destruct (TextGenerationStrategy._get_end_of_generation_tokens_and_strings
                self eod_id end_strings) as [[s1 tr1] [et sc]] eqn:Hget.
    simpl in Hrep, Hmodel. simpl.
    assert (Hsecond :
      TextGenerationStrategy.end_of_generation_condition s1 tokens prev eod_id
        end_strings
      = match sc with
        | [] => (s1, [], Ok (map (fun p => bool_decide (p ∈ et)) prev))
        | _ :: _ =>
            (s1,
             (TextGenerationStrategy.suffix_checks (tokenizer (model self)) sc
                (trows tokens) 0 (map (fun p => bool_decide (p ∈ et)) prev)).1,
             (TextGenerationStrategy.suffix_checks (tokenizer (model self)) sc
                (trows tokens) 0 (map (fun p => bool_decide (p ∈ et)) prev)).2)
        end).
    { rewrite (end_of_generation_condition_general_unfold s1) by done.
      cbv zeta. rewrite Hrep, Hmodel. simpl. by destruct sc. }
    destruct sc as [|s sc]; simpl; rewrite Hsecond; simpl.
    + split; [done|]. split; [done|]. intros e H. by apply elem_of_nil in H.
    + split; [done|]. split; [done|]. apply suffix_checks_only_decodes.
Qed.

(** X14: when some end string needs a string comparison and [tokens] has
    more rows than [prev] has entries, the call raises [IndexError]. *)
Theorem end_of_generation_condition_too_many_rows (self : Strategy)
    (tokens : grid) (prev : list Z) (eod_id : Z) (end_strings : list string) :
  end_strings ≠ [] → end_strings ≠ [END_OF_SEQ] →
  (TextGenerationStrategy._get_end_of_generation_tokens_and_strings
     self eod_id end_strings).2.2 ≠ [] →
  (length prev < nrows tokens)%nat →
  (TextGenerationStrategy.end_of_generation_condition self tokens prev eod_id
     end_strings).2 = Err IndexError.
Proof.
  intros Hne Hdef Hsc Hrows.
  rewrite end_of_generation_condition_general_unfold
    by by apply only_end_of_document_false.
  cbv zeta.
  destruct (TextGenerationStrategy._get_end_of_generation_tokens_and_strings
              self eod_id end_strings) as [[s1 tr1] [et sc]].
  simpl in *. destruct sc as [|s sc]; [done|]. simpl.
  apply suffix_checks_overflow; rewrite length_map; unfold nrows in Hrows; lia.
Qed.

Lemma end_of_generation_condition_too_many_rows_witness :
  (TextGenerationStrategy.end_of_generation_condition Session.gpt_strategy
     Session.tokens [6] 9 ["STOP"]).2 = Err IndexError.
Proof.
  apply end_of_generation_condition_too_many_rows;
    [discriminate | discriminate | discriminate | vm_compute; lia].
Defined.

(** X15: what the test costs.  On the general path, when [tokens] has no
    more rows than [prev] has entries, the call succeeds; after the events
    of the resolution it decodes every row of [tokens] once, in order, if
    some end string needs a string comparison, and decodes nothing
    otherwise; a sequence without a row in [tokens] is judged on its
    previous token alone. *)
Theorem end_of_generation_condition_decodes_each_row (self : Strategy)
    (tokens : grid) (prev : list Z) (eod_id : Z) (end_strings : list string) :
  end_strings ≠ [] → end_strings ≠ [END_OF_SEQ] →
  (nrows tokens ≤ length prev)%nat →
  let r := TextGenerationStrategy._get_end_of_generation_tokens_and_strings
             self eod_id end_strings in
  let out := TextGenerationStrategy.end_of_generation_condition self tokens
               prev eod_id end_strings in
  out.1.2 = r.1.2 ++ match r.2.2 with
                     | [] => []
                     | _ :: _ => IdsToText <$> trows tokens
                     end ∧
  ∃ is_end, out.2 = Ok is_end ∧
            length is_end = length prev ∧
            ∀ i p, prev !! i = Some p → trows tokens !! i = None →
                   is_end !! i = Some (bool_decide (p ∈ r.2.1)).
Proof.
  intros Hne Hdef Hrows r out. subst out r.
  rewrite end_of_generation_condition_general_unfold
    by by apply only_end_of_document_false.
  cbv zeta.
  destruct (TextGenerationStrategy._get_end_of_generation_tokens_and_strings
              self eod_id end_strings) as [[s1 tr1] [et sc]].
  simpl.
  set (is_end0 := map (fun p => bool_decide (p ∈ et)) prev).
  assert (Hlook : ∀ i p, prev !! i = Some p →
                         is_end0 !! i = Some (bool_decide (p ∈ et))).
  { intros i p Hp. subst is_end0.
    by rewrite map_is_fmap, list_lookup_fmap, Hp. }
  destruct sc as [|s sc]; simpl.
  - rewrite app_nil_r. split; [done|]. exists is_end0.
    split; [done|]. split; [by apply length_map|]. intros i p Hp _. by apply Hlook.
  - destruct (suffix_checks_spec (tokenizer (model self)) (s :: sc)
                (trows tokens) 0 is_end0) as (res & Hrun & Hlen & Hspec).
    { subst is_end0. rewrite length_map. unfold nrows in Hrows. lia. }
    rewrite Hrun. simpl. split; [done|]. exists res.
    split; [done|]. split; [rewrite Hlen; by apply length_map|].
    intros i p Hp Hrow.
    by rewrite (Hspec i _ (Hlook i p Hp)), Nat.sub_0_r, Hrow.
Qed.

Lemma end_of_generation_condition_decodes_each_row_witness :
  (TextGenerationStrategy.end_of_generation_condition Session.gpt_strategy
     Session.tokens [6; 8; 7] 9 ["Done"; "STOP"]).1.2
  = (TextGenerationStrategy._get_end_of_generation_tokens_and_strings
       Session.gpt_strategy 9 ["Done"; "STOP"]).1.2
    ++ [IdsToText [5; 6; 9]; IdsToText [7; 8; 9]].
Proof.
  destruct (end_of_generation_condition_decodes_each_row Session.gpt_strategy
              Session.tokens [6; 8; 7] 9 ["Done"; "STOP"]) as [Htrace _];
    [discriminate | discriminate | vm_compute; lia |].
  exact Htrace.
Defined.

(** ** Retrieval neighbours: which rows are returned *)

Lemma py_slice_nonneg {A} (l : list A) (start stop : Z) :
  0 <= start <= stop →
  py_slice l start stop = take (Z.to_nat (stop - start)) (drop (Z.to_nat start) l).
Proof.
  intros H. unfold py_slice, slice_start.
  destruct (Z.ltb_spec start 0); [lia|].
  rewrite slice_stop_nonneg by lia.
  destruct (decide (Z.of_nat (length l) <= start)) as [Hout | Hin].
  - rewrite !drop_ge by lia. by rewrite !take_nil.
  - replace (Z.to_nat (Z.min start (Z.of_nat (length l)))) with (Z.to_nat start)
      by lia.
    destruct (decide (stop <= Z.of_nat (length l))) as [Hs | Hs].
    + f_equal. lia.
    + rewrite !take_ge; [done | rewrite length_drop; lia..].
Qed.

Lemma pad_neighbour_lookup (eos r : Z) (neighbour_tokens : list Z) (j : nat) :
  0 <= r → (j < Z.to_nat r)%nat →
  RetroModelTextGenerationStrategy.pad_neighbour eos r neighbour_tokens !! j
  = Some (default eos (neighbour_tokens !! j)).
Proof.
  intros Hr Hj. unfold RetroModelTextGenerationStrategy.pad_neighbour.
  destruct (Z.geb_spec (Z.of_nat (length neighbour_tokens)) r) as [Hge | Hlt].
  - rewrite py_slice_nonneg by lia. rewrite drop_0, Z.sub_0_r.
    rewrite lookup_take_lt by done.
    destruct (lookup_lt_is_Some_2 neighbour_tokens j ltac:(lia)) as [x ->].
    done.
  - destruct (decide (j < length neighbour_tokens)%nat) as [Hin | Hout].
    + rewrite lookup_app_l by done.
      by destruct (lookup_lt_is_Some_2 neighbour_tokens j Hin) as [x ->].
    + rewrite lookup_app_r by lia.
      rewrite (lookup_ge_None_2 neighbour_tokens j) by lia. simpl.
      unfold py_repeat. rewrite lookup_replicate_2; [done | lia].
Qed.

(** X16: for non-negative settings [tokenize_neighbors_batch] returns a
    tensor whatever the number of neighbours supplied.  Its rows are, in
    order, the first [retro_num_neighbors] neighbours that exist (counted
    from the start when [reuse_top] is set, from position [ft_neighbours]
    otherwise); each row has [retro_gpt_retrieved_length] entries: the
    tokens of the neighbour, cut at that length, followed by [eos_id] where
    the neighbour is shorter. *)
Theorem tokenize_neighbors_batch_rows (self : Strategy)
    (neighbors : list string) (retro_args : RetroArgs) :
  0 <= retro_gpt_retrieved_length retro_args →
  0 <= retro_num_neighbors retro_args →
  0 <= ft_neighbours retro_args →
  let tk := tokenizer (model self) in
  let r := Z.to_nat (retro_gpt_retrieved_length retro_args) in
  let first := if reuse_top retro_args then 0%nat
               else Z.to_nat (ft_neighbours retro_args) in
  ∃ g, RetroModelTextGenerationStrategy.tokenize_neighbors_batch
         self neighbors retro_args = Ok g ∧
       nrows g = (Z.to_nat (retro_num_neighbors retro_args)
                  `min` (length neighbors - first))%nat ∧
       ∀ i, (i < nrows g)%nat →
         ∃ neighbor row,
           neighbors !! (first + i)%nat = Some neighbor ∧
           trows g !! i = Some row ∧
           length row = r ∧
           ∀ j, (j < r)%nat →
                row !! j = Some (default (eos_id tk) (tokenize tk neighbor !! j)).
Proof.
  intros Hr Hnum Hft tk r first.
  unfold RetroModelTextGenerationStrategy.tokenize_neighbors_batch.
  fold tk.
  set (valid := if reuse_top retro_args then _ else _).
  assert (Hvalid : valid
            = take (Z.to_nat (retro_num_neighbors retro_args))
                (drop first (map (tokenize tk) neighbors))).
  { subst valid first. destruct (reuse_top retro_args).
    - rewrite py_slice_nonneg by lia. by rewrite Z.sub_0_r.
    - rewrite py_slice_nonneg by lia. do 2 f_equal. lia. }
  set (padded := map _ valid).
  assert (Hall : Forall (fun row => length row = r) padded).
  { subst padded. apply Forall_forall. intros row Hin.
    apply list_elem_of_In, in_map_iff in Hin as (x & <- & _).
    by apply length_pad_neighbour. }
  destruct (LongTensor_equal_rows padded _ Hall) as (g & Hg & Hrows).
  exists g. split.
  { destruct (_ <? _); simpl; exact Hg. }
  assert (Hn : nrows g = (Z.to_nat (retro_num_neighbors retro_args)
                          `min` (length neighbors - first))%nat).
  { unfold nrows. rewrite Hrows. subst padded.
    by rewrite length_map, Hvalid, length_take, length_drop, length_map. }
  split; [done|].
  intros i Hi. rewrite Hn in Hi.
  destruct (lookup_lt_is_Some_2 neighbors (first + i) ltac:(lia))
    as [neighbor Hneighbor].
  exists neighbor,
    (RetroModelTextGenerationStrategy.pad_neighbour (eos_id tk)
       (retro_gpt_retrieved_length retro_args) (tokenize tk neighbor)).
  split; [done|]. split.
  - rewrite Hrows. subst padded.
    rewrite map_is_fmap, list_lookup_fmap, Hvalid.
    rewrite lookup_take_lt, lookup_drop by lia.
    by rewrite map_is_fmap, list_lookup_fmap, Hneighbor.
  - split; [by apply length_pad_neighbour|].
    intros j Hj. by apply pad_neighbour_lookup.
Qed.

Lemma tokenize_neighbors_batch_rows_witness :
  ∃ g, RetroModelTextGenerationStrategy.tokenize_neighbors_batch
         Session.gpt_strategy ["ab"; "abcd"; "a"]
         {| retro_gpt_retrieved_length := 2; retro_num_neighbors := 5;
            ft_neighbours := 1; reuse_top := false |} = Ok g ∧
       nrows g = 2%nat.
Proof.
  destruct (tokenize_neighbors_batch_rows Session.gpt_strategy
              ["ab"; "abcd"; "a"]
              {| retro_gpt_retrieved_length := 2; retro_num_neighbors := 5;
                 ft_neighbours := 1; reuse_top := false |})
    as (g & Hg & Hn & _); [simpl; lia.. |].
  exists g. split; [exact Hg | exact Hn].
Defined.

(** ** The dispatcher: the keyword arguments *)

(** X17: for a retrieval model the [strategy] keyword is required and must
    be a string: without it the dispatcher raises [KeyError], and with a
    value that is not a string it raises [ValueError]. *)
Theorem model_inference_strategy_dispatcher_strategy_keyword
    (m : Model) (args : gmap string value) :
  isinstance_MegatronNevaModel m = false →
  isinstance_MegatronGPTPromptLearningModel m = false →
  isinstance_MegatronGPTModel m = false →
  isinstance_MegatronRetrievalModel m = true →
  (args !! "strategy" = None →
   model_inference_strategy_dispatcher m args = Err (KeyError "strategy")) ∧
  (∀ x, args !! "strategy" = Some x → (∀ name, x ≠ VStr name) →
        model_inference_strategy_dispatcher m args = Err ValueError).
Proof.
  intros Hn Hp Hg Hr. unfold model_inference_strategy_dispatcher.
  rewrite Hn, Hp, Hg, Hr. split.
  - by intros ->.
  - intros x -> Hx. simpl.
    rewrite !bool_decide_eq_false_2; [done | apply Hx..].
Qed.

Lemma model_inference_strategy_dispatcher_strategy_keyword_witness :
  model_inference_strategy_dispatcher
    (Session.a_model None false false false true) {[ "task_ids" := VNone ]}
  = Err (KeyError "strategy") ∧
  model_inference_strategy_dispatcher
    (Session.a_model None false false false true) {[ "strategy" := VInt 1 ]}
  = Err ValueError.
Proof.
  split.
  - by apply (model_inference_strategy_dispatcher_strategy_keyword
                (Session.a_model None false false false true)
                {[ "task_ids" := VNone ]}).
  - destruct (model_inference_strategy_dispatcher_strategy_keyword
                (Session.a_model None false false false true)
                {[ "strategy" := VInt 1 ]} eq_refl eq_refl eq_refl eq_refl)
      as [_ H].
    apply (H (VInt 1)); [reflexivity | discriminate].
Defined.

(** X18: what a retrieval strategy is constructed with.  Whenever the
    dispatcher returns for a model that is only a retrieval model, the
    constructor receives that model, no [strategy] keyword, the model's
    [megatron_lm_compatible] flag under that keyword (overriding a value
    the caller may have passed), and every other keyword as given. *)
Theorem model_inference_strategy_dispatcher_retro_kwargs
    (m : Model) (args : gmap string value) (c : Construction) :
  isinstance_MegatronNevaModel m = false →
  isinstance_MegatronGPTPromptLearningModel m = false →
  isinstance_MegatronGPTModel m = false →
  model_inference_strategy_dispatcher m args = Ok c →
  cls_model c = m ∧
  kwargs c !! "strategy" = None ∧
  kwargs c !! "megatron_lm_compatible" = Some (VBool (megatron_lm_compatible m)) ∧
  ∀ k, k ≠ "strategy" → k ≠ "megatron_lm_compatible" →
       kwargs c !! k = args !! k.
Proof.
  intros Hn Hp Hg. unfold model_inference_strategy_dispatcher.
  rewrite Hn, Hp, Hg.
  destruct (isinstance_MegatronRetrievalModel m); [|done].
  destruct (args !! "strategy") as [x|]; [|done].
  assert (Hkw : ∀ kw,
            kw = <["megatron_lm_compatible" := VBool (megatron_lm_compatible m)]>
                   (delete "strategy" args) →
            kw !! "strategy" = None ∧
            kw !! "megatron_lm_compatible" = Some (VBool (megatron_lm_compatible m)) ∧
            ∀ k, k ≠ "strategy" → k ≠ "megatron_lm_compatible" →
                 kw !! k = args !! k).
  { intros kw ->. split; [|split].
    - rewrite lookup_insert_ne by done. apply lookup_delete_eq.
    - apply lookup_insert_eq.
    - intros k H1 H2. rewrite lookup_insert_ne by done.
      by rewrite lookup_delete_ne. }
  repeat case_bool_decide; intros [= <-]; simpl; (split; [done|]);
    by apply Hkw.
Qed.

Lemma model_inference_strategy_dispatcher_retro_kwargs_witness :
  ∃ c,
    model_inference_strategy_dispatcher
      (Session.a_model None false false false true)
      {[ "strategy" := VStr "RetroQAModelTextGenerationStrategy";
         "megatron_lm_compatible" := VBool true ]} = Ok c ∧
    kwargs c !! "strategy" = None ∧
    kwargs c !! "megatron_lm_compatible" = Some (VBool false).
Proof.
  eexists. split; [reflexivity|].
  match goal with
  | |- kwargs ?c !! _ = _ ∧ _ =>
      assert (Hc : model_inference_strategy_dispatcher
                     (Session.a_model None false false false true)
                     {[ "strategy" := VStr "RetroQAModelTextGenerationStrategy";
                        "megatron_lm_compatible" := VBool true ]} = Ok c)
        by reflexivity;
      destruct (model_inference_strategy_dispatcher_retro_kwargs
                  (Session.a_model None false false false true) _
                  c eq_refl eq_refl eq_refl Hc) as (_ & H1 & H2 & _)
  end.
  by split.
Defined.

(** ** Post-processing: what is left afterwards *)

Lemma length_map_take_drop {A} (f : A → A) (k : nat) (r : list A) :
  length (map f (take k r) ++ drop k r) = length r.
Proof. rewrite length_app, length_map, length_take, length_drop. lia. Qed.

Lemma replace_pseudo_token_below (start unk x : Z) :
  unk < start →
  PromptLearningModelTextGenerationStrategy.replace_pseudo_token start unk x < start.
Proof.
  intros Hunk. rewrite replace_pseudo_token_spec. case_bool_decide; lia.
Qed.

Lemma replace_pseudo_token_idempotent (start unk x : Z) :
  PromptLearningModelTextGenerationStrategy.replace_pseudo_token start unk
    (PromptLearningModelTextGenerationStrategy.replace_pseudo_token start unk x)
  = PromptLearningModelTextGenerationStrategy.replace_pseudo_token start unk x.
Proof.
  unfold PromptLearningModelTextGenerationStrategy.replace_pseudo_token.
  destruct (Z.geb_spec x start) as [Hx | Hx].
  - by destruct (unk >=? start).
  - destruct (Z.geb_spec x start); [lia | done].
Qed.

(** X19: when the unknown-token id lies below the threshold, no
    pseudo-token id is left after [post_process] of the prompt-learning
    strategy: every entry of [new_tokens] and every entry of the first
    [context_length] columns of [tokens] is below
    [pseudo_token_ids_start]; the grid keeps its shape. *)
Theorem post_process_removes_pseudo_tokens (self : Strategy) (tokens : grid)
    (new_tokens : list Z) (context_length start : Z) :
  grid_wf tokens → 0 <= context_length →
  pseudo_token_ids_start (model self) = Some start →
  unk_id (tokenizer (model self)) < start →
  let out := PromptLearningModelTextGenerationStrategy.post_process
               self tokens new_tokens context_length in
  grid_wf (fst out) ∧
  (∀ i x, snd out !! i = Some x → x < start) ∧
  (∀ i j x, Z.of_nat j < context_length →
            grid_get (fst out) i j = Some x → x < start).
Proof.
  intros Hwf Hc Hstart Hunk out. subst out.
  unfold PromptLearningModelTextGenerationStrategy.post_process.
  rewrite Hstart. simpl. split; [|split].
  - unfold grid_wf in *. simpl. apply Forall_forall. intros row Hin.
    apply list_elem_of_In, in_map_iff in Hin as (r & <- & Hr).
    rewrite length_map_take_drop. rewrite Forall_forall in Hwf.
    by apply Hwf, list_elem_of_In.
  - intros i x. rewrite map_is_fmap, list_lookup_fmap.
    destruct (new_tokens !! i) as [y|]; [|done]. simpl. intros [= <-].
    by apply replace_pseudo_token_below.
  - intros i j x Hj. unfold grid_get. simpl.
    rewrite map_is_fmap, list_lookup_fmap.
    destruct (trows tokens !! i) as [r|] eqn:Hr; [simpl | done].
    intros Hx.
    pose proof (lookup_lt_Some _ _ _ Hx) as Hlt.
    rewrite length_map_take_drop in Hlt.
    destruct (lookup_lt_is_Some_2 r j Hlt) as [y Hy].
    rewrite (lookup_map_take_drop _ _ _ _ _ Hy) in Hx.
    pose proof (grid_wf_row tokens i r Hwf Hr) as Hlen.
    rewrite slice_stop_nonneg in Hx by done.
    rewrite bool_decide_eq_true_2 in Hx by lia.
    injection Hx as <-. by apply replace_pseudo_token_below.
Qed.

Lemma post_process_removes_pseudo_tokens_witness :
  let out := PromptLearningModelTextGenerationStrategy.post_process
               Session.gpt_strategy (Grid 3 [[50005; 42; 50007]])
               [50005; 42] 2 in
  ∃ x, snd out !! 0%nat = Some x ∧ x < 50000.
Proof.
  assert (Hwf : grid_wf (Grid 3 [[50005; 42; 50007]])).
  { repeat constructor. }
  destruct (post_process_removes_pseudo_tokens Session.gpt_strategy
              (Grid 3 [[50005; 42; 50007]]) [50005; 42] 2 50000 Hwf
              ltac:(lia) eq_refl ltac:(simpl; lia)) as (_ & Hnew & _).
  exists 3. split; [reflexivity|]. exact (Hnew 0%nat 3 eq_refl).
Defined.

Lemma map_take_drop_idempotent {A} (f : A → A) (k : nat) (r : list A) :
  (∀ x, f (f x) = f x) →
  map f (take k (map f (take k r) ++ drop k r)) ++ drop k (map f (take k r) ++ drop k r)
  = map f (take k r) ++ drop k r.
Proof.
  intros Hf.
  destruct (decide (k ≤ length r)%nat) as [Hle | Hgt].
  - rewrite take_app_length', drop_app_length'
      by (rewrite length_map, length_take; lia).
    f_equal. rewrite map_map. apply map_ext. intros x. apply Hf.
  - rewrite (drop_ge r k) by lia. rewrite app_nil_r.
    rewrite (take_ge (map f (take k r))) by (rewrite length_map, length_take; lia).
    rewrite (drop_ge (map f (take k r))) by (rewrite length_map, length_take; lia).
    rewrite app_nil_r, map_map. apply map_ext. intros x. apply Hf.
Qed.

(** X20: [post_process] of the prompt-learning strategy can be applied
    again without effect: on its own result, with the same
    [context_length], it changes nothing. *)
Theorem post_process_idempotent (self : Strategy) (tokens : grid)
    (new_tokens : list Z) (context_length : Z) :
  let out := PromptLearningModelTextGenerationStrategy.post_process
               self tokens new_tokens context_length in
  PromptLearningModelTextGenerationStrategy.post_process
    self (fst out) (snd out) context_length = out.
Proof.
  intros out. subst out.
  unfold PromptLearningModelTextGenerationStrategy.post_process.
  destruct (pseudo_token_ids_start (model self)) as [start|]; [|done].
  simpl. f_equal.
  - f_equal. rewrite map_map. apply map_ext. intros r.
    apply map_take_drop_idempotent. intros x.
    apply replace_pseudo_token_idempotent.
  - rewrite map_map. apply map_ext. intros x.
    apply replace_pseudo_token_idempotent.
Qed.

(** ** [clip_max_len]: order and repetition *)

(** X21: for every strategy [clip_max_len] is monotone in [maxlen], and
    clipping a clipped length changes nothing. *)
Theorem clip_max_len_monotone_idempotent (v : Variant) (self : Strategy) :
  (∀ a b, a <= b → clip_max_len v self a <= clip_max_len v self b) ∧
  (∀ a, clip_max_len v self (clip_max_len v self a) = clip_max_len v self a).
Proof.
  split.
  - intros a b Hab.
    destruct v; simpl;
      unfold GPTModelTextGenerationStrategy.clip_max_len,
        NevaModelTextGenerationStrategy.clip_max_len,
        PromptLearningModelTextGenerationStrategy.clip_max_len,
        RetroModelTextGenerationStrategy.clip_max_len;
      rewrite !clip_to_min; try destruct (String.eqb _ _); lia.
  - intros a.
    destruct v; simpl;
      unfold GPTModelTextGenerationStrategy.clip_max_len,
        NevaModelTextGenerationStrategy.clip_max_len,
        PromptLearningModelTextGenerationStrategy.clip_max_len,
        RetroModelTextGenerationStrategy.clip_max_len;
      rewrite !clip_to_min; try destruct (String.eqb _ _); lia.
Qed.

Lemma clip_max_len_monotone_idempotent_witness :
  clip_max_len GPT Session.gpt_strategy 4 <= clip_max_len GPT Session.gpt_strategy 20.
Proof.
  destruct (clip_max_len_monotone_idempotent GPT Session.gpt_strategy)
    as [Hmono _].
  apply Hmono. lia.
Defined.

(** ** The cache and [eod_id] *)

Lemma loop_returns_cached_token (tk : Tokenizer) (strs : list string)
    (st : TextGenerationStrategy.resolution) (s : string) (t : Z) :
  s ∈ strs →
  outcome tk (TextGenerationStrategy.res_cache st) s = Some t →
  t ∈ TextGenerationStrategy.end_tokens
        (snd (TextGenerationStrategy.resolve_end_strings tk strs st)).
Proof.
  revert st. induction strs as [|s0 strs IH]; intros st Hin Hout.
  { by apply elem_of_nil in Hin. }
  simpl.
  pose proof (step_by_outcome tk s0 st) as Hstep.
  pose proof (step_keeps_outcome tk s0 s st) as Hkeep.
  destruct (TextGenerationStrategy.resolve_end_string tk s0 st) as [tr1 st1].
  simpl in *.
  pose proof (loop_grows tk strs st1) as (_ & _ & T & _).
  specialize (IH st1).
  destruct (TextGenerationStrategy.resolve_end_strings tk strs st1) as [tr2 st2].
  simpl in *.
  apply elem_of_cons in Hin as [-> | Hin].
  - rewrite Hout in Hstep. destruct Hstep as (Ht & _).
    apply T. rewrite Ht. apply elem_of_union_r. by apply elem_of_singleton.
  - apply IH; [done | congruence].
Qed.

(** X22: a kept cache answers with what it recorded.  When the cache
    records the active tokenizer and a token for one of the end strings,
    that token is among the returned [end_tokens].  In particular the
    token recorded for ["<|endoftext|>"] when the cache was built stays an
    end token in every later call that lists this string, next to the
    [eod_id] of that call, even if the two differ. *)
Theorem end_of_generation_cached_token_returned (self : Strategy) (eod_id : Z)
    (end_strings : list string) (c : Cache) (s : string) (t : Z) :
  _end_of_generation_cache self = Some c →
  tok_ident (cache_tokenizer c) = tok_ident (tokenizer (model self)) →
  cache_end_string_to_token c !! s = Some t →
  s ∈ end_strings →
  let r := TextGenerationStrategy._get_end_of_generation_tokens_and_strings
             self eod_id end_strings in
  t ∈ r.2.1 ∧ eod_id ∈ r.2.1.
Proof.
  intros Hc Hid Hmap Hin r. subst r.
  split; [|apply get_end_of_generation_has_eod].
  rewrite get_end_of_generation_unfold. simpl.
  rewrite (current_cache_kept self eod_id c Hc Hid).
  apply (loop_returns_cached_token _ _ _ s); [done|].
  unfold outcome. simpl. by rewrite Hmap.
Qed.

Lemma end_of_generation_cached_token_returned_witness :
  let r := TextGenerationStrategy._get_end_of_generation_tokens_and_strings
             (set_end_of_generation_cache Session.gpt_strategy
                (Some (TextGenerationStrategy.fresh_cache Session.tk 9)))
             10 ["Done"; END_OF_SEQ] in
  9 ∈ r.2.1 ∧ 10 ∈ r.2.1.
Proof.
  apply (end_of_generation_cached_token_returned
           (set_end_of_generation_cache Session.gpt_strategy
              (Some (TextGenerationStrategy.fresh_cache Session.tk 9)))
           10 ["Done"; END_OF_SEQ] _ END_OF_SEQ 9 eq_refl eq_refl eq_refl).
  apply list_elem_of_In. simpl. tauto.
Defined.

(** ** The discovery heuristic within a call *)

Lemma resolved_or_not (c : Cache) (s : string) : resolved c s ∨ ¬ resolved c s.
Proof.
  unfold resolved.
  destruct (cache_end_string_to_token c !! s) as [t|].
  - left. left. by eexists.
  - destruct (decide (s ∈ cache_end_strings_to_check c)) as [Hin | Hout].
    + left. by right.
    + right. intros [[t Ht] | Hin]; done.
Qed.

Lemma string_app_inv_tail (a b x : string) : a +:+ x = b +:+ x → a = b.
Proof.
  intros H. apply (f_equal list_ascii_of_string) in H.
  rewrite !list_ascii_of_string_app in H. apply app_inv_tail in H.
  rewrite <- (string_of_list_ascii_of_string a).
  rewrite <- (string_of_list_ascii_of_string b). by rewrite H.
Qed.

Lemma no_special_token_warning_inj (s s' : string) :
  TextGenerationStrategy.no_special_token_warning s
  = TextGenerationStrategy.no_special_token_warning s' → s = s'.
Proof.
  unfold TextGenerationStrategy.no_special_token_warning. intros H.
  apply String.app_inj in H. by apply string_app_inv_tail in H.
Qed.

(** The condition of the heuristic in words, and the token it yields. *)
Lemma heuristic_token_spec (tk : Tokenizer) (s : string) :
  let ids_ref := text_to_ids tk "<extra_id_1>" in
  let ids_with_end_string := text_to_ids tk ("<extra_id_1>" +:+ s) in
  (length ids_with_end_string = (length ids_ref + 1)%nat ∧
   ids_ref `prefix_of` ids_with_end_string →
   ∃ t, last ids_with_end_string = Some t ∧ heuristic_token tk s = Some t) ∧
  (¬ (length ids_with_end_string = (length ids_ref + 1)%nat ∧
      ids_ref `prefix_of` ids_with_end_string) →
   heuristic_token tk s = None).
Proof.
  intros ids_ref ids_with_end_string. unfold heuristic_token.
  fold ids_ref ids_with_end_string. split.
  - intros [t Ht]%one_longer_with_prefix.
    rewrite (proj2 (one_extra_token_spec ids_ref ids_with_end_string))
      by by exists t.
    exists t. by rewrite Ht, last_snoc, List.last_last.
  - intros Hno.
    destruct (TextGenerationStrategy.one_extra_token ids_ref ids_with_end_string)
      eqn:Htest; [|done].
    apply one_extra_token_spec in Htest. exfalso. apply Hno.
    by apply one_longer_with_prefix.
Qed.

Lemma outcome_unresolved (tk : Tokenizer) (c : Cache) (s : string) :
  ¬ resolved c s → outcome tk c s = heuristic_token tk s.
Proof.
  unfold resolved, outcome. intros Hun.
  destruct (cache_end_string_to_token c !! s) as [t|] eqn:Hmap.
  - exfalso. apply Hun. left. by eexists.
  - rewrite bool_decide_eq_false_2; [done|]. intros Hin. apply Hun. by right.
Qed.

Lemma outcome_resolved_token (tk : Tokenizer) (c : Cache) (s : string) (t : Z) :
  resolved c s → outcome tk c s = Some t →
  cache_end_string_to_token c !! s = Some t.
Proof.
  unfold resolved, outcome. intros Hres.
  destruct (cache_end_string_to_token c !! s) as [t'|] eqn:Hmap; [done|].
  destruct Hres as [[t' Ht'] | Hin]; [done|].
  by rewrite bool_decide_eq_true_2.
Qed.

Lemma outcome_resolved_string (tk : Tokenizer) (c : Cache) (s : string) :
  resolved c s → outcome tk c s = None →
  cache_end_string_to_token c !! s = None ∧ s ∈ cache_end_strings_to_check c.
Proof.
  unfold resolved, outcome. intros Hres.
  destruct (cache_end_string_to_token c !! s) as [t'|] eqn:Hmap; [done|].
  destruct Hres as [[t' Ht'] | Hin]; [done|]. done.
Qed.

Section Probes.

Variable tk : Tokenizer.

Abbreviation run_step := (TextGenerationStrategy.resolve_end_string tk).
Abbreviation run_loop := (TextGenerationStrategy.resolve_end_strings tk).
Abbreviation cache_in := TextGenerationStrategy.res_cache.

(** An unresolved end string costs exactly one run of the heuristic. *)
Lemma step_probes (s : string) (st : TextGenerationStrategy.resolution) :
  ¬ resolved (cache_in st) s → fst (run_step s st) = probe_events tk s.
Proof.
  unfold resolved, probe_events, heuristic_token,
    TextGenerationStrategy.resolve_end_string.
  intros Hun.
  destruct (cache_end_string_to_token (cache_in st) !! s) as [t|] eqn:Hmap.
  { exfalso. apply Hun. left. by eexists. }
  rewrite bool_decide_eq_false_2 by (intros Hin; apply Hun; by right).
  by destruct (TextGenerationStrategy.one_extra_token _ _).
Qed.

(** After its iteration the end string is resolved, and no other end
    string has changed side. *)
Lemma step_resolves_only (s0 s : string) (st : TextGenerationStrategy.resolution) :
  ¬ resolved (cache_in st) s0 →
  resolved (cache_in (snd (run_step s0 st))) s ↔ resolved (cache_in st) s ∨ s = s0.
Proof.
  intros Hun.
  destruct (resolve_end_string_records tk s0 st) as (Hs0 & Hmono & _).
  split.
  - intros Hres. destruct (decide (s = s0)) as [-> | Hne]; [by right | left].
    revert Hres. unfold resolved, TextGenerationStrategy.resolve_end_string.
    destruct (cache_end_string_to_token (cache_in st) !! s0) as [t|] eqn:Hmap;
      [done|].
    case_bool_decide as Hin; [done|].
    destruct (TextGenerationStrategy.one_extra_token _ _); simpl.
    + rewrite lookup_insert_ne by done. tauto.
    + intros [H | H]; [by left | right].
      apply elem_of_union in H as [H | H]; [done|].
      apply elem_of_singleton in H. congruence.
  - intros [Hres | ->]; [by apply Hmono | done].
Qed.

(** The events of the loop are the runs of the heuristic on the distinct
    end strings that the cache does not resolve, in order of first
    appearance. *)
Lemma loop_probes (strs : list string) (st : TextGenerationStrategy.resolution) :
  ∃ probes,
    fst (run_loop strs st) = concat (probe_events tk <$> probes) ∧
    NoDup probes ∧
    ∀ s, s ∈ probes ↔ s ∈ strs ∧ ¬ resolved (cache_in st) s.
Proof.
  revert st. induction strs as [|s0 strs IH]; intros st.
  { exists []. split; [done|]. split; [constructor|].
    intros s. split; [intros H; by apply elem_of_nil in H|].
    intros [H _]. by apply elem_of_nil in H. }
  simpl.
  destruct (resolved_or_not (cache_in st) s0) as [Hres | Hun].
  - destruct (resolve_end_string_known tk s0 st Hres) as [Htr Hcache].
    destruct (run_step s0 st) as [tr1 st1]. simpl in *. subst tr1.
    destruct (IH st1) as (probes & Hrun & Hnd & Hiff).
    destruct (run_loop strs st1) as [tr2 st2]. simpl in *.
    exists probes. split; [done|]. split; [done|].
    intros s. rewrite Hiff, Hcache, elem_of_cons. split.
    + intros [Hin Hs]. split; [by right | done].
    + intros [[-> | Hin] Hs]; [done | by split].
  - pose proof (step_probes s0 st Hun) as Htr.
    pose proof (fun s => step_resolves_only s0 s st Hun) as Hside.
    destruct (run_step s0 st) as [tr1 st1]. simpl in *. subst tr1.
    destruct (IH st1) as (probes & Hrun & Hnd & Hiff).
    destruct (run_loop strs st1) as [tr2 st2]. simpl in *.
    exists (s0 :: probes). split; [by rewrite Hrun|]. split.
    + constructor; [|done]. rewrite Hiff, Hside. intros [_ Hno].
      apply Hno. by right.
    + intros s. rewrite !elem_of_cons, Hiff, Hside. split.
      * intros [-> | [Hin Hs]]; [split; [by left | done]|].
        split; [by right|]. intros Hr. apply Hs. by left.
      * intros [[-> | Hin] Hs]; [by left|].
        destruct (decide (s = s0)) as [-> | Hne]; [by left | right].
        split; [done|]. intros [Hr | ->]; done.
Qed.

Lemma probe_events_other_warning (s s' : string) :
  s' ≠ s →
  Warn (TextGenerationStrategy.no_special_token_warning s) ∉ probe_events tk s'.
Proof.
  intros Hne. unfold probe_events. intros Hin.
  apply elem_of_app in Hin as [Hin | Hin].
  - apply elem_of_cons in Hin as [Hin | Hin]; [done|].
    apply list_elem_of_singleton in Hin. done.
  - destruct (heuristic_token tk s'); [by apply elem_of_nil in Hin|].
    apply list_elem_of_singleton in Hin.
    assert (Heq : TextGenerationStrategy.no_special_token_warning s
                  = TextGenerationStrategy.no_special_token_warning s')
      by congruence.
    by apply no_special_token_warning_inj in Heq.
Qed.

Lemma probes_other_warning (s : string) (l : list string) :
  s ∉ l →
  Warn (TextGenerationStrategy.no_special_token_warning s)
    ∉ concat (probe_events tk <$> l).
Proof.
  induction l as [|s' l IH]; intros Hs.
  { intros H. by apply elem_of_nil in H. }
  apply not_elem_of_cons in Hs as [Hne Hs].
  rewrite fmap_cons, concat_cons.
  intros Hin. apply elem_of_app in Hin as [Hin | Hin].
  - by apply (probe_events_other_warning s s') in Hin.
  - by apply IH.
Qed.

(** A string that comes out as a token is never added to the strings to
    compare. *)
Lemma loop_token_not_a_string (strs : list string)
    (st : TextGenerationStrategy.resolution) (s : string) (t : Z) :
  outcome tk (cache_in st) s = Some t →
  s ∉ TextGenerationStrategy.end_strings_to_check st →
  s ∉ TextGenerationStrategy.end_strings_to_check (snd (run_loop strs st)).
Proof.
  revert st. induction strs as [|s0 strs IH]; intros st Hout Hs; simpl; [done|].
  pose proof (step_by_outcome tk s0 st) as Hstep.
  pose proof (step_keeps_outcome tk s0 s st) as Hkeep.
  destruct (run_step s0 st) as [tr1 st1]. simpl in *.
  specialize (IH st1).
  destruct (run_loop strs st1) as [tr2 st2]. simpl in *.
  apply IH; [congruence|].
  destruct (outcome tk (cache_in st) s0) as [t0|] eqn:Hout0.
  - destruct Hstep as (_ & -> & _). done.
  - destruct Hstep as (_ & -> & _). intros Hin.
    apply elem_of_app in Hin as [Hin | Hin]; [done|].
    apply list_elem_of_singleton in Hin. congruence.
Qed.

End Probes.

(** C4: within [_get_end_of_generation_tokens_and_strings], for every end
    string of the call that the cache in force does not know, the tokenizer
    is asked for ["<extra_id_1>"] and, next, for ["<extra_id_1>"] followed
    by the end string.  When the second answer is one token longer than the
    first and starts with it, its last token is in the returned
    [end_tokens] and is recorded in the cache for the end string; the end
    string is not among the returned strings to check and no warning is
    issued for it.  In every other case the warning for the end string
    follows the two tokenizations, the end string is among the returned
    strings to check and is recorded as such in the cache, and no token is
    recorded for it.  The call returns in both cases. *)
Theorem get_end_of_generation_uncached_end_string (self : Strategy) (eod_id : Z)
    (end_strings : list string) (end_string : string) :
  end_string ∈ end_strings →
  ¬ resolved (TextGenerationStrategy.current_cache self eod_id) end_string →
  let tk := tokenizer (model self) in
  let ids_ref := text_to_ids tk "<extra_id_1>" in
  let ids_with_end_string := text_to_ids tk ("<extra_id_1>" +:+ end_string) in
  let calls := [TextToIds "<extra_id_1>"; TextToIds ("<extra_id_1>" +:+ end_string)] in
  let warning := Warn (TextGenerationStrategy.no_special_token_warning end_string) in
  let r := TextGenerationStrategy._get_end_of_generation_tokens_and_strings
             self eod_id end_strings in
  ∃ c', _end_of_generation_cache r.1.1 = Some c' ∧
    (length ids_with_end_string = (length ids_ref + 1)%nat ∧
     ids_ref `prefix_of` ids_with_end_string →
     ∃ t, last ids_with_end_string = Some t ∧
          t ∈ r.2.1 ∧
          cache_end_string_to_token c' !! end_string = Some t ∧
          (end_string ∉ r.2.2) ∧
          ∃ before after,
            r.1.2 = before ++ calls ++ after ∧
            warning ∉ before ++ after) ∧
    (¬ (length ids_with_end_string = (length ids_ref + 1)%nat ∧
        ids_ref `prefix_of` ids_with_end_string) →
     end_string ∈ r.2.2 ∧
     end_string ∈ cache_end_strings_to_check c' ∧
     cache_end_string_to_token c' !! end_string = None ∧
     ∃ before after, r.1.2 = before ++ calls ++ [warning] ++ after).
Proof.
  intros Hin Hun tk ids_ref ids_with_end_string calls warning r.
  subst r. rewrite get_end_of_generation_unfold. cbv zeta.
  fold tk.
  set (st0 := TextGenerationStrategy.Build_resolution
                (TextGenerationStrategy.current_cache self eod_id) {[ eod_id ]} []).
  change (TextGenerationStrategy.current_cache self eod_id)
    with (TextGenerationStrategy.res_cache st0) in Hun.
  destruct (loop_probes tk end_strings st0) as (probes & Htrace & Hnd & Hiff).
  destruct (resolve_end_strings_records tk end_strings st0) as (Hall & _ & _).
  pose proof (loop_keeps_outcome tk end_strings end_string st0) as Hkeep.
  pose proof (loop_returns_cached_token tk end_strings st0 end_string) as Htok.
  pose proof (loop_token_not_a_string tk end_strings st0 end_string) as Hnot.
  pose proof (loop_complete tk end_strings st0 end_string Hin) as Hcomp.
  rewrite (outcome_unresolved tk _ _ Hun) in Hkeep.
  rewrite (outcome_unresolved tk _ _ Hun) in Htok, Hnot.
  assert (Hres : resolved (TextGenerationStrategy.res_cache
                   (TextGenerationStrategy.resolve_end_strings tk end_strings st0).2)
                   end_string).
  { rewrite Forall_forall in Hall. by apply Hall. }
  assert (Hp : end_string ∈ probes) by (apply Hiff; by split).
  apply list_elem_of_split in Hp as (l1 & l2 & Hsplit).
  assert (Hparts : (end_string ∉ l1) ∧ (end_string ∉ l2)).
  { rewrite Hsplit in Hnd. apply NoDup_app in Hnd as (_ & Hl1 & Hnd2).
    apply NoDup_cons in Hnd2 as [Hl2 _]. split; [|done].
    intros H1. apply (Hl1 _ H1). by left. }
  destruct Hparts as [Hl1 Hl2].
  assert (Hshape :
    (TextGenerationStrategy.resolve_end_strings tk end_strings st0).1
    = concat (probe_events tk <$> l1) ++ probe_events tk end_string
      ++ concat (probe_events tk <$> l2)).
  { rewrite Htrace, Hsplit, fmap_app, concat_app. by rewrite fmap_cons. }
  destruct (heuristic_token_spec tk end_string) as [Hyes Hno].
  fold tk ids_ref ids_with_end_string in Hyes, Hno.
  cbv zeta in Hyes, Hno. fold ids_ref ids_with_end_string in Hyes, Hno.
  simpl. eexists. split; [done|]. split.
  - intros Hcond. destruct (Hyes Hcond) as (t & Hlast & Hheur).
    exists t. split; [done|].
    split; [by apply Htok|].
    split.
    { apply (outcome_resolved_token tk); [done | by rewrite Hkeep]. }
    split.
    { apply (Hnot t Hheur). simpl. intros H. by apply elem_of_nil in H. }
    exists (concat (probe_events tk <$> l1)), (concat (probe_events tk <$> l2)).
    split.
    + rewrite Hshape. unfold probe_events. rewrite Hheur. by rewrite app_nil_r.
    + intros Hw. apply elem_of_app in Hw as [Hw | Hw];
        by apply probes_other_warning in Hw.
  - intros Hcond. specialize (Hno Hcond).
    destruct (outcome_resolved_string tk _ _ Hres) as [Hmap Hchk];
      [by rewrite Hkeep|].
    split.
    { destruct Hcomp as [(t & Ht & _) | [Hs _]]; [congruence | done]. }
    split; [done|]. split; [done|].
    exists (concat (probe_events tk <$> l1)), (concat (probe_events tk <$> l2)).
    rewrite Hshape. unfold probe_events. rewrite Hno.
    by rewrite <- !app_assoc.
Qed.

Lemma fresh_cache_unresolved (tk : Tokenizer) (eod_id : Z) (s : string) :
  ¬ resolved (TextGenerationStrategy.fresh_cache tk eod_id) s ↔ s ≠ END_OF_SEQ.
Proof.
  unfold resolved. simpl. split.
  - intros Hun ->. apply Hun. left. rewrite lookup_singleton_eq. by eexists.
  - intros Hne [[t Ht] | Hin].
    + by rewrite lookup_singleton_ne in Ht.
    + by apply not_elem_of_empty in Hin.
Qed.

(** With no cache on the strategy, ["Done"] is found to be the token 7 and
    ["STOP"] is not a single token. *)
Lemma get_end_of_generation_uncached_end_string_witness :
  let r := TextGenerationStrategy._get_end_of_generation_tokens_and_strings
             Session.gpt_strategy 9 ["Done"; "STOP"] in
  (∃ c' t, _end_of_generation_cache r.1.1 = Some c' ∧
           t ∈ r.2.1 ∧ t = 7 ∧
           cache_end_string_to_token c' !! "Done" = Some t ∧
           "Done" ∉ r.2.2) ∧
  (∃ c', _end_of_generation_cache r.1.1 = Some c' ∧
         "STOP" ∈ r.2.2 ∧
         "STOP" ∈ cache_end_strings_to_check c' ∧
         ∃ before after,
           r.1.2 = before
                   ++ [TextToIds "<extra_id_1>"; TextToIds "<extra_id_1>STOP"]
                   ++ [Warn (TextGenerationStrategy.no_special_token_warning "STOP")]
                   ++ after).
Proof.
  assert (Hun : ∀ s, s ≠ END_OF_SEQ →
            ¬ resolved (TextGenerationStrategy.current_cache
                          Session.gpt_strategy 9) s).
  { intros s Hs. by apply (fresh_cache_unresolved Session.tk 9 s). }
  split.
  - destruct (get_end_of_generation_uncached_end_string Session.gpt_strategy 9
                ["Done"; "STOP"] "Done") as (c' & Hc' & Hyes & _).
    { apply list_elem_of_In. simpl. tauto. }
    { apply Hun. discriminate. }
    destruct Hyes as (t & Hlast & Ht & Hmap & Hstr & _).
    { split; [reflexivity | by exists [7]]. }
    exists c', t. split; [exact Hc'|]. split; [exact Ht|].
    split; [by injection Hlast as <-|]. split; [exact Hmap | exact Hstr].
  - destruct (get_end_of_generation_uncached_end_string Session.gpt_strategy 9
                ["Done"; "STOP"] "STOP") as (c' & Hc' & _ & Hno).
    { apply list_elem_of_In. simpl. tauto. }
    { apply Hun. discriminate. }
    destruct Hno as (Hstr & Hchk & _ & Htrace).
    { intros [Hlen _]. discriminate Hlen. }
    exists c'. split; [exact Hc'|]. split; [exact Hstr|].
    split; [exact Hchk | exact Htrace].
Defined.

(** The events of a call are the runs of the heuristic on the distinct end
    strings that the cache in force does not resolve; the cache left
    resolves every end string of the call and keeps what it held. *)
Lemma get_end_of_generation_probes (self : Strategy) (eod_id : Z)
    (end_strings : list string) :
  let tk := tokenizer (model self) in
  let c0 := TextGenerationStrategy.current_cache self eod_id in
  let r := TextGenerationStrategy._get_end_of_generation_tokens_and_strings
             self eod_id end_strings in
  ∃ probes c',
    r.1.2 = concat (probe_events tk <$> probes) ∧
    NoDup probes ∧
    (∀ s, s ∈ probes ↔ s ∈ end_strings ∧ ¬ resolved c0 s) ∧
    _end_of_generation_cache r.1.1 = Some c' ∧
    cache_tokenizer c' = cache_tokenizer c0 ∧
    (∀ s t, cache_end_string_to_token c0 !! s = Some t →
            cache_end_string_to_token c' !! s = Some t) ∧
    (∀ s, s ∈ cache_end_strings_to_check c0 →
          s ∈ cache_end_strings_to_check c') ∧
    Forall (resolved c') end_strings.
Proof.
  intros tk c0 r. subst r. rewrite get_end_of_generation_unfold. cbv zeta.
  fold tk c0.
  set (st0 := TextGenerationStrategy.Build_resolution c0 {[ eod_id ]} []).
  destruct (loop_probes tk end_strings st0) as (probes & Htrace & Hnd & Hiff).
  destruct (resolve_end_strings_records tk end_strings st0) as (Hall & _ & Htk).
  destruct (loop_grows tk end_strings st0) as (M & C & _ & _).
  exists probes. eexists. simpl.
  split; [exact Htrace|]. split; [done|]. split; [exact Hiff|].
  split; [done|]. split; [exact Htk|]. split.
  - intros s t Hs. by eapply lookup_weaken.
  - split; [|exact Hall]. intros s Hs. by apply C.
Qed.

(** C5: the end-of-generation cache.  (1) While the cache records the
    active tokenizer object, the tokenizer calls and warnings of a call are
    exactly the runs of the discovery heuristic, one for each distinct end
    string of the call that the cache does not resolve yet: an end string
    the cache resolves, as a token or as a string to check, is never probed
    again, also when the call brings new end strings; the cache keeps the
    tokenizer and every answer it held, and a call whose end strings are all
    resolved makes no call and leaves the strategy as it was.  (2) After
    any call, a further call with the tokenizer unchanged probes only end
    strings that the first call did not have.  (3) When there is no cache,
    or the cache records a tokenizer of another identity, the call behaves
    exactly as on a newly built cache, whatever the old cache held: every
    distinct end string other than ["<|endoftext|>"] is probed, and the
    cache left records the active tokenizer. *)
Theorem end_of_generation_cache_invariant (self : Strategy) (eod_id : Z)
    (end_strings : list string) :
  let tk := tokenizer (model self) in
  let get := TextGenerationStrategy._get_end_of_generation_tokens_and_strings in
  let r := get self eod_id end_strings in
  (∀ c, _end_of_generation_cache self = Some c →
        tok_ident (cache_tokenizer c) = tok_ident tk →
        (∃ probes c',
           r.1.2 = concat (probe_events tk <$> probes) ∧
           NoDup probes ∧
           (∀ s, s ∈ probes ↔ s ∈ end_strings ∧ ¬ resolved c s) ∧
           (∀ s, resolved c s → s ∉ probes) ∧
           _end_of_generation_cache r.1.1 = Some c' ∧
           cache_tokenizer c' = cache_tokenizer c ∧
           (∀ s t, cache_end_string_to_token c !! s = Some t →
                   cache_end_string_to_token c' !! s = Some t) ∧
           (∀ s, s ∈ cache_end_strings_to_check c →
                 s ∈ cache_end_strings_to_check c')) ∧
        (Forall (resolved c) end_strings → r.1.2 = [] ∧ r.1.1 = self)) ∧
  (∀ eod_id' again,
     ∃ probes,
       (get r.1.1 eod_id' again).1.2 = concat (probe_events tk <$> probes) ∧
       NoDup probes ∧
       ∀ s, s ∈ probes → s ∈ again ∧ s ∉ end_strings) ∧
  (_end_of_generation_cache self = None ∨
   (∃ c, _end_of_generation_cache self = Some c ∧
         tok_ident (cache_tokenizer c) ≠ tok_ident tk) →
   r = (let '(self', tr, res) :=
          get (set_end_of_generation_cache self
                 (Some (TextGenerationStrategy.fresh_cache tk eod_id)))
              eod_id end_strings in
        (self', tr, res)) ∧
   (∃ probes,
      r.1.2 = concat (probe_events tk <$> probes) ∧
      NoDup probes ∧
      ∀ s, s ∈ probes ↔ s ∈ end_strings ∧ s ≠ END_OF_SEQ) ∧
   ∃ c', _end_of_generation_cache r.1.1 = Some c' ∧
         tok_ident (cache_tokenizer c') = tok_ident tk).
Proof.
  intros tk get r. split; [|split].
  - intros c Hc Hid. split.
    + destruct (get_end_of_generation_probes self eod_id end_strings)
        as (probes & c' & Htrace & Hnd & Hiff & Hc' & Htk & Hmap & Hchk & _).
      cbv zeta in Htrace, Hiff, Hc', Htk, Hmap, Hchk.
      rewrite (current_cache_kept self eod_id c Hc Hid) in Hiff, Htk, Hmap, Hchk.
      exists probes, c'. split; [exact Htrace|]. split; [done|].
      split; [exact Hiff|]. split; [|done].
      intros s Hres Hin. apply Hiff in Hin as [_ Hun]. done.
    + intros Hall. subst r get.
      rewrite get_end_of_generation_unfold. cbv zeta.
      rewrite (current_cache_kept self eod_id c Hc Hid).
      set (st0 := TextGenerationStrategy.Build_resolution c {[ eod_id ]} []).
      destruct (resolve_end_strings_known (tokenizer (model self)) end_strings
                  st0 Hall) as [Htr Hcache].
      simpl. split; [done|]. rewrite Hcache. by apply set_same_cache.
  - intros eod_id' again.
    destruct (get_end_of_generation_leaves_cache self eod_id end_strings)
      as (Hmodel & c & Hc & Hid & Hall).
    fold get r in Hmodel, Hc.
    destruct (get_end_of_generation_probes r.1.1 eod_id' again)
      as (probes & c' & Htrace & Hnd & Hiff & _).
    cbv zeta in Htrace, Hiff. rewrite Hmodel in Htrace.
    rewrite (current_cache_kept r.1.1 eod_id' c Hc) in Hiff
      by by rewrite Hmodel.
    exists probes. split; [exact Htrace|]. split; [done|].
    intros s Hs. apply Hiff in Hs as [Hin Hun]. split; [done|].
    intros Hold. apply Hun. rewrite Forall_forall in Hall. by apply Hall.
  - intros Hstale. split; [|split].
    + subst r get.
      unfold TextGenerationStrategy._get_end_of_generation_tokens_and_strings.
      rewrite (current_cache_rebuilt self eod_id Hstale).
      destruct self as [m am pids tids nam npids oc]. simpl in *.
      unfold TextGenerationStrategy.current_cache. simpl.
      rewrite Nat.eqb_refl. simpl.
      by destruct (TextGenerationStrategy.resolve_end_strings _ _ _) as [tr st].
    + destruct (get_end_of_generation_probes self eod_id end_strings)
        as (probes & c' & Htrace & Hnd & Hiff & _).
      cbv zeta in Htrace, Hiff.
      rewrite (current_cache_rebuilt self eod_id Hstale) in Hiff.
      exists probes. split; [exact Htrace|]. split; [done|].
      intros s. rewrite Hiff. by rewrite fresh_cache_unresolved.
    + destruct (get_end_of_generation_leaves_cache self eod_id end_strings)
        as (_ & c & Hc & Hid & _).
      by exists c.
Qed.

(** After ["Done"] has been resolved, a call on ["Done"] and ["STOP"] probes
    ["STOP"] and not ["Done"]; a strategy whose cache was built for another
    tokenizer object, and which held an answer for ["Done"], probes ["Done"]
    again and ends up with a cache for the active tokenizer. *)
Lemma end_of_generation_cache_invariant_witness :
  (∃ probes,
     (TextGenerationStrategy._get_end_of_generation_tokens_and_strings
        (TextGenerationStrategy._get_end_of_generation_tokens_and_strings
           Session.gpt_strategy 9 ["Done"]).1.1
        9 ["Done"; "STOP"]).1.2
     = concat (probe_events Session.tk <$> probes) ∧
     "Done" ∉ probes) ∧
  (∃ probes,
     (TextGenerationStrategy._get_end_of_generation_tokens_and_strings
        Session.stale_strategy 9 ["Done"]).1.2
     = concat (probe_events Session.tk <$> probes) ∧
     "Done" ∈ probes) ∧
  ∃ c', _end_of_generation_cache
          (TextGenerationStrategy._get_end_of_generation_tokens_and_strings
             Session.stale_strategy 9 ["Done"]).1.1 = Some c' ∧
        tok_ident (cache_tokenizer c') = 1%nat.
Proof.
  destruct (end_of_generation_cache_invariant Session.gpt_strategy 9 ["Done"])
    as (_ & Hagain & _).
  destruct (end_of_generation_cache_invariant Session.stale_strategy 9 ["Done"])
    as (_ & _ & Hstale).
  split; [|split].
  - destruct (Hagain 9 ["Done"; "STOP"]) as (probes & Htrace & _ & Hsub).
    exists probes. split; [exact Htrace|].
    intros Hin. destruct (Hsub _ Hin) as [_ Hnot]. apply Hnot.
    by apply list_elem_of_singleton.
  - destruct Hstale as (_ & (probes & Htrace & _ & Hiff) & _).
    { right. eexists. split; [reflexivity|]. simpl. discriminate. }
    exists probes. split; [exact Htrace|]. apply Hiff.
    split; [by apply list_elem_of_singleton | discriminate].
  - destruct Hstale as (_ & _ & Hcache).
    { right. eexists. split; [reflexivity|]. simpl. discriminate. }
    exact Hcache.
Defined.
